(** * Label-space partitioning classifier: [skmultilearn/ensemble/partition.py]

    A shallow embedding of [LabelSpacePartitioningClassifier]: the instance
    is an attribute store, methods are computations in a state-and-exception
    monad over that store and a heap of result matrices, and the external
    collaborators (format coercion, clusterer, base classifiers) are
    parameters. *)

From Stdlib Require Import ZArith Lia.
From stdpp Require Import gmap strings list fin_maps.

Set Default Proof Using "Type".

(** ** Exceptions and outcomes *)

(** The exceptions a call can end in.  [AttributeError] carries the name of
    the attribute that was looked up; [Raised] is whatever a collaborator
    raises on its own account, identified by its kind. *)
Inductive exn : Type :=
  | AttributeError (attr : string)
  | TypeError
  | IndexError
  | ValueError
  | Raised (kind : string).

Inductive outcome (A : Type) : Type :=
  | Ok (a : A)
  | Raise (e : exn).
Arguments Ok {A} a.
Arguments Raise {A} e.

(** ** Sparse result matrix ([scipy.sparse.lil_matrix], dtype int) *)

(** Only the non-zero cells are stored. *)
Record lil_matrix : Type := LilMatrix {
  lil_shape : Z * Z;
  lil_cells : gmap (Z * Z) Z
}.

(** [sparse.lil_matrix((M, N), dtype=int)]: all zero; a negative dimension
    is refused. *)
Definition new_lil (M N : Z) : outcome lil_matrix :=
  if ((M <? 0) || (N <? 0))%Z then Raise ValueError
  else Ok (LilMatrix (M, N) ∅).

(** [m[i, j] = x] on a [lil_matrix]: an index is accepted in [-dim, dim),
    a negative one counts from the end, and storing zero removes the cell. *)
Definition lil_insert (m : lil_matrix) (i j x : Z) : outcome lil_matrix :=
  let '(M, N) := lil_shape m in
  if ((i <? - M) || (M <=? i))%Z then Raise IndexError else
  let i' := if (i <? 0)%Z then (i + M)%Z else i in
  if ((j <? - N) || (N <=? j))%Z then Raise IndexError else
  let j' := if (j <? 0)%Z then (j + N)%Z else j in
  Ok (LilMatrix (M, N)
        (if (x =? 0)%Z then delete (i', j') (lil_cells m)
         else <[(i', j') := x]> (lil_cells m))).

(** The entry at a position given with non-negative indices. *)
Definition lil_get (m : lil_matrix) (i j : Z) : Z :=
  default 0%Z (lil_cells m !! (i, j)).

(** ** Prediction matrices and [nonzero()] *)

(** What a group's classifier predicts, once coerced: rows of integers. *)
Definition pred_get (sp : list (list Z)) (r c : nat) : Z :=
  default 0%Z (sp !! r ≫= λ row, row !! c).

Fixpoint nonzero_row (r c : nat) (row : list Z) : list (nat * nat) :=
  match row with
  | [] => []
  | v :: row' =>
      if (v =? 0)%Z then nonzero_row r (S c) row'
      else (r, c) :: nonzero_row r (S c) row'
  end.

Fixpoint nonzero_from (r : nat) (rows : list (list Z)) : list (nat * nat) :=
  match rows with
  | [] => []
  | row :: rows' => nonzero_row r 0 row ++ nonzero_from (S r) rows'
  end.

(** [.nonzero()] zipped: the (row, column) pairs of the non-zero entries,
    by row and then by column. *)
Definition nonzero (sp : list (list Z)) : list (nat * nat) :=
  nonzero_from 0 sp.

(** ** The merge, as a function *)

(** Setting every listed cell to 1, in order. *)
Definition mark_all (cells : gmap (Z * Z) Z) (keys : list (Z * Z))
  : gmap (Z * Z) Z :=
  foldl (λ acc k, <[k := 1%Z]> acc) cells keys.

Definition mark (m : lil_matrix) (keys : list (Z * Z)) : lil_matrix :=
  LilMatrix (lil_shape m) (mark_all (lil_cells m) keys).

(** The cells one group writes: each non-zero (row, local column) pair,
    with the local column sent through the group to its label index. *)
Definition targets (group : list Z) (coords : list (nat * nat))
  : list (Z * Z) :=
  omap (λ rc, g ← group !! rc.2; Some (Z.of_nat rc.1, g)) coords.

Definition model_targets (p : list (list Z)) (preds : list (list (list Z)))
    (m : nat) : list (Z * Z) :=
  match p !! m, preds !! m with
  | Some group, Some sp => targets group (nonzero sp)
  | _, _ => []
  end.

(** Everything the models write, in the order of the loop. *)
Definition all_targets (p : list (list Z)) (preds : list (list (list Z)))
  : list (Z * Z) :=
  mjoin (model_targets p preds <$> seq 0 (length p)).

(** 0 stays 0, anything else counts as an assertion. *)
Definition indicator (v : Z) : Z := if (v =? 0)%Z then 0%Z else 1%Z.

(** Some group asserts label [j] for row [i]: it holds [j] at a local
    position where its classifier predicted a non-zero value. *)
Definition asserted (p : list (list Z)) (preds : list (list (list Z)))
    (i j : Z) : Prop :=
  ∃ (m : nat) group sp (r c : nat),
    p !! m = Some group ∧ preds !! m = Some sp ∧ group !! c = Some j ∧
    i = Z.of_nat r ∧ pred_get sp r c ≠ 0%Z.

(** Every label index in [0, N) lies in exactly one group, exactly once. *)
Definition true_partition (N : Z) (p : list (list Z)) : Prop :=
  NoDup (mjoin p) ∧ ∀ g : Z, (0 ≤ g < N)%Z ↔ g ∈ mjoin p.

(** Label [g] is a member of some group. *)
Definition covered (p : list (list Z)) (g : Z) : Prop :=
  ∃ group, group ∈ p ∧ g ∈ group.

Section Classifier.

(** ** External collaborators *)

(** [RawX]: what a caller hands to [predict]/[fit] as features;
    [Csr]: a feature matrix in row-compressed form; [RawPred]: what a
    base classifier's [predict] returns; [Labels]: a label matrix. *)
Context {RawX Csr RawPred Labels : Type}.

(** [self._ensure_input_format(X, sparse_format='csr', enforce_sparse=True)] *)
Variable ensure_input_format : RawX → outcome Csr.
(** [self._ensure_output_format(P, sparse_format=None, enforce_sparse=True)] *)
Variable ensure_output_format : RawPred → outcome (list (list Z)).
(** [X.shape[0]] and [y.shape[1]] *)
Variable shape0 : Csr → nat.
Variable shape1 : Labels → nat.

(** A trained sub-classifier, by its [predict] method. *)
Definition classifier : Type := Csr → outcome RawPred.
(** A base classifier, by what fitting a copy of it on [X] and the columns
    [group] of [y] gives. *)
Definition estimator : Type := Csr → Labels → list Z → outcome classifier.
(** A label-space clusterer, by its [fit_predict] method. *)
Definition clusterer : Type := Csr → Labels → outcome (list (list Z)).

(** ** The instance *)

Inductive value : Type :=
  | VNone
  | VInt (n : Z)
  | VNames (l : list string)
  | VFlags (d : bool * bool)
  | VPartition (p : list (list Z))
  | VEstimator (b : estimator)
  | VClassifiers (cs : list classifier)
  | VClusterer (k : clusterer)
  | VRef (l : nat).

(** The attributes of [self], and the matrices allocated so far (a
    matrix is known by its position in [heap]). *)
Record world : Type := World {
  attrs : gmap string value;
  heap : list lil_matrix
}.

Definition set_attrs (a : gmap string value) (w : world) : world :=
  World a (heap w).
Definition set_heap (h : list lil_matrix) (w : world) : world :=
  World (attrs w) h.

(** ** Computations *)

Definition M (A : Type) : Type := world → world * outcome A.

#[export] Instance M_ret : MRet M := λ A a w, (w, Ok a).
#[export] Instance M_bind : MBind M := λ A B k m w,
  match m w with
  | (w', Ok a) => k a w'
  | (w', Raise e) => (w', Raise e)
  end.
Definition throw {A} (e : exn) : M A := λ w, (w, Raise e).
Definition lift {A} (o : outcome A) : M A := λ w, (w, o).

(** [self.name] *)
Definition getattr (name : string) : M value :=
  λ w, match attrs w !! name with
       | Some v => (w, Ok v)
       | None => (w, Raise (AttributeError name))
       end.

(** [self.name = v] *)
Definition setattr (name : string) (v : value) : M unit :=
  λ w, (set_attrs (<[name := v]> (attrs w)) w, Ok tt).

(** [for x in l: body x] *)
Fixpoint for_ {A} (l : list A) (body : A → M unit) : M unit :=
  match l with
  | [] => mret tt
  | x :: l' => body x ;; for_ l' body
  end.

(** A new object: it gets the next free position of the heap. *)
Definition alloc (m : lil_matrix) : M nat :=
  λ w, (set_heap (heap w ++ [m]) w, Ok (length (heap w))).

(** [sparse.lil_matrix((rows, cols), dtype=int)] *)
Definition lil_matrix_new (rows : Z) (cols : value) : M nat :=
  match cols with
  | VInt n => m ← lift (new_lil rows n); alloc m
  | _ => throw TypeError
  end.

(** [result[row, col] = x] *)
Definition setitem (result : nat) (row col x : Z) : M unit :=
  λ w, match heap w !! result with
       | Some m =>
           match lil_insert m row col x with
           | Ok m' => (set_heap (<[result := m']> (heap w)) w, Ok tt)
           | Raise e => (w, Raise e)
           end
       | None => (w, Raise TypeError)
       end.

(** [range(n)] *)
Definition range (n : value) : M (list nat) :=
  match n with
  | VInt n => mret (seq 0 (Z.to_nat n))
  | _ => throw TypeError
  end.

(** [cs[model]] on the list of classifiers *)
Definition classifier_at (cs : value) (model : nat) : M classifier :=
  match cs with
  | VClassifiers cs =>
      match cs !! model with
      | Some c => mret c
      | None => throw IndexError
      end
  | _ => throw TypeError
  end.

(** [p[model][column]] on the partition *)
Definition label_at (p : value) (model column : nat) : M Z :=
  match p with
  | VPartition p =>
      match p !! model with
      | Some group =>
          match group !! column with
          | Some g => mret g
          | None => throw IndexError
          end
      | None => throw IndexError
      end
  | _ => throw TypeError
  end.

(** ** [LabelSpacePartitioningClassifier] *)

(** Modelled from the spec: the constructor of the parent class
    [BinaryRelevance], which [partition.py] only imports; it puts the base
    classifier under [self.classifier] and the density flags under
    [self.require_dense]. *)
Definition base_init (classifier require_dense : value) : M unit :=
  setattr "classifier" classifier;;
  setattr "require_dense" require_dense.

Definition __init__ (classifier clusterer require_dense : value) : M unit :=
  base_init classifier require_dense;;
  setattr "clusterer" clusterer;;
  setattr "copyable_attrs"
    (VNames ["clusterer"; "classifier"; "require_dense"]).

(** The body of the loop over one model's non-zero predictions. *)
Definition scatter (result : nat) (model : nat) (rc : nat * nat) : M unit :=
  partition_ ← getattr "partition_";
  g ← label_at partition_ model rc.2;
  setitem result (Z.of_nat rc.1) g 1.

(** One pass of the loop over the models. *)
Definition model_pass (X : Csr) (result : nat) (model : nat) : M unit :=
  classifiers_ ← getattr "classifiers_";
  clf ← classifier_at classifiers_ model;
  raw ← lift (clf X);
  predictions ← lift (ensure_output_format raw);
  for_ (nonzero predictions) (scatter result model).

Definition predict (X : RawX) : M nat :=
  X ← lift (ensure_input_format X);
  label_count ← getattr "label_count";
  result ← lil_matrix_new (Z.of_nat (shape0 X)) label_count;
  model_count ← getattr "model_count";
  models ← range model_count;
  for_ models (model_pass X result);;
  mret result.

(** [self.clusterer.fit_predict(X, y)] *)
Definition fit_predict (k : value) (X : Csr) (y : Labels)
  : M (list (list Z)) :=
  match k with
  | VClusterer k => lift (k X y)
  | _ => throw (AttributeError "fit_predict")
  end.

Definition _generate_partition (X : Csr) (y : Labels) : M unit :=
  clusterer ← getattr "clusterer";
  p ← fit_predict clusterer X y;
  setattr "partition_" (VPartition p);;
  partition_ ← getattr "partition_";
  match partition_ with
  | VPartition p =>
      setattr "model_count_" (VInt (Z.of_nat (length p)));;
      setattr "_label_count" (VInt (Z.of_nat (shape1 y)))
  | _ => throw TypeError
  end.

(** Modelled from the spec: the inherited per-partition training step,
    which [partition.py] does not define.  One copy of the base classifier
    is fitted per group, over the columns of [y] in that group, in the
    order of the groups. *)
Fixpoint train_groups (b : estimator) (X : Csr) (y : Labels)
    (p : list (list Z)) : M (list classifier) :=
  match p with
  | [] => mret []
  | group :: p' =>
      c ← lift (b X y group);
      cs ← train_groups b X y p';
      mret (c :: cs)
  end.

(** Modelled from the spec: the training step reads the base classifier
    and [self.partition_], and stores the trained classifiers under
    [self.classifiers_], all at once. *)
Definition train_per_group (X : Csr) (y : Labels) : M unit :=
  base ← getattr "classifier";
  partition_ ← getattr "partition_";
  match base, partition_ with
  | VEstimator b, VPartition p =>
      cs ← train_groups b X y p;
      setattr "classifiers_" (VClassifiers cs)
  | _, _ => throw TypeError
  end.

(** Modelled from the spec: the inherited [fit], which [partition.py]
    does not define: the partition is generated first, then the
    per-partition training step runs. *)
Definition fit (X : RawX) (y : Labels) : M unit :=
  X ← lift (ensure_input_format X);
  _generate_partition X y;;
  train_per_group X y.

(** ** The state [predict] works on *)

(** The attributes [predict] reads are bound: the label count, the model
    count (the number of groups), one classifier per group, and a
    partition whose indices are label indices. *)
Record trained (w : world) (N : Z) (p : list (list Z))
    (cs : list classifier) : Prop := Trained {
  tr_count : (0 ≤ N)%Z;
  tr_label_count : attrs w !! "label_count" = Some (VInt N);
  tr_model_count :
    attrs w !! "model_count" = Some (VInt (Z.of_nat (length p)));
  tr_classifiers : attrs w !! "classifiers_" = Some (VClassifiers cs);
  tr_partition : attrs w !! "partition_" = Some (VPartition p);
  tr_aligned : length cs = length p;
  tr_range : Forall (Forall (λ g : Z, (0 ≤ g < N)%Z)) p
}.

(** On [X] every group's classifier answers, and its coerced answer has
    one row per sample and one column per label of the group. *)
Definition answers (X : Csr) (p : list (list Z)) (cs : list classifier)
    (preds : list (list (list Z))) : Prop :=
  Forall2 (λ (c : classifier) sp,
             ∃ raw, c X = Ok raw ∧ ensure_output_format raw = Ok sp)
          cs preds ∧
  Forall2 (λ (group : list Z) (sp : list (list Z)),
             length sp = shape0 X ∧
             Forall (λ row : list Z, length row = length group) sp)
          p preds.

(** From [w] to [w'] the attributes are as they were, and so is every
    matrix below position [b]; nothing was removed from the heap. *)
Definition undisturbed (b : nat) (w w' : world) : Prop :=
  attrs w' = attrs w ∧
  length (heap w) ≤ length (heap w') ∧
  ∀ i, i < b → heap w' !! i = heap w !! i.

(** The matrix at position [l] stores nothing but ones. *)
Definition binary_at (l : nat) (w : world) : Prop :=
  ∃ m, heap w !! l = Some m ∧
       ∀ k v, lil_cells m !! k = Some v → v = 1%Z.

(** A computation that keeps [P] true of the world, however it ends. *)
Definition preserves {A} (P : world → Prop) (m : M A) : Prop :=
  ∀ w, P w → P (m w).1.

(** No attribute refers to a matrix that is not allocated yet. *)
Definition closed (w : world) : Prop :=
  ∀ name l, attrs w !! name = Some (VRef l) → l < length (heap w).

End Classifier.

Arguments value : clear implicits.
Arguments world : clear implicits.

(** ** A concrete setting

    The round trip of a three-label problem: the clusterer returns
    [[0,2],[1]], every group's classifier predicts all ones.  Features are
    left out of the picture: a coerced input is known by its number of
    rows, and an input that cannot be coerced is [None]. *)
Module Scenario.

Definition ensure_input_format (X : option nat) : outcome nat :=
  match X with
  | Some n => Ok n
  | None => Raise (Raised "format")
  end.

Definition ensure_output_format (P : list (list Z))
  : outcome (list (list Z)) := Ok P.

Definition shape0 (X : nat) : nat := X.
Definition shape1 (y : nat * nat) : nat := y.2.

Definition wd : Type := world nat (list (list Z)) (nat * nat).

(** A classifier over [k] labels that predicts all ones. *)
Definition ones (k : nat) : classifier (Csr := nat) :=
  λ n, Ok (replicate n (replicate k 1%Z)).

Definition base : estimator (Csr := nat) (Labels := nat * nat) :=
  λ _ _ group, Ok (ones (length group)).

Definition fixed_clusterer : clusterer (Csr := nat) (Labels := nat * nat) :=
  λ _ _, Ok [[0; 2]; [1]]%Z.

Definition failing_clusterer : clusterer (Csr := nat) (Labels := nat * nat) :=
  λ _ _, Raise (Raised "fit-failure").

Definition predict (X : option nat) : M (Labels := nat * nat) nat :=
  predict ensure_input_format ensure_output_format shape0 X.

Definition fit (X : option nat) (y : nat * nat)
  : M (RawPred := list (list Z)) unit :=
  fit ensure_input_format shape1 X y.

Definition generate_partition (X : nat) (y : nat * nat)
  : M (RawPred := list (list Z)) unit :=
  _generate_partition shape1 X y.

(** A new instance, nothing allocated. *)
Definition fresh : wd :=
  (__init__ (VEstimator base) (VClusterer fixed_clusterer)
     (VFlags (true, true)) (World ∅ [])).1.

(** ... after [_generate_partition] on one sample with three labels *)
Definition generated : wd := (generate_partition 1 (1, 3) fresh).1.

(** ... after [fit] on one sample with three labels *)
Definition fitted : wd := (fit (Some 1) (1, 3) fresh).1.

(** An instance on which the attributes [predict] reads are bound. *)
Definition partition_ : list (list Z) := [[0; 2]; [1]]%Z.
Definition classifiers_ : list (classifier (Csr := nat)) :=
  [ones 2; ones 1].
Definition ready : wd :=
  World (<["label_count" := VInt 3]>
           (<["model_count" := VInt 2]>
              (<["classifiers_" := VClassifiers classifiers_]>
                 (<["partition_" := VPartition partition_]> ∅)))) [].

(** The same with groups that overlap on label 1 and miss label 2. *)
Definition overlapping : list (list Z) := [[0; 1]; [1]]%Z.
Definition ready_overlapping : wd :=
  World (<["label_count" := VInt 3]>
           (<["model_count" := VInt 2]>
              (<["classifiers_" := VClassifiers classifiers_]>
                 (<["partition_" := VPartition overlapping]> ∅)))) [].

(** What the two classifiers predict on one sample. *)
Definition preds : list (list (list Z)) := [[[1; 1]]; [[1]]]%Z.

(** Singleton groups whose classifiers predict 0, 1 and 0. *)
Definition constant (row : list Z) : classifier (Csr := nat) :=
  λ n, Ok (replicate n row).
Definition ready_singletons : wd :=
  World (<["label_count" := VInt 3]>
           (<["model_count" := VInt 3]>
              (<["classifiers_" :=
                   VClassifiers
                     [constant [0%Z]; constant [1%Z]; constant [0%Z]]]>
                 (<["partition_" := VPartition [[0]; [1]; [2]]%Z]> ∅))))
        [].

(** Row [i] of the matrix a call returned, over the first [n] labels. *)
Definition result_row (r : wd * outcome nat) (i : Z) (n : nat)
  : option (list Z) :=
  match r with
  | (w, Ok l) =>
      (λ m, (λ j, lil_get m i (Z.of_nat j)) <$> seq 0 n) <$> heap w !! l
  | (_, Raise _) => None
  end.

End Scenario.

(** ** More of the behaviour of [predict] *)

(** Every stored cell lies inside the shape of the matrix. *)
Definition within (m : lil_matrix) : Prop :=
  ∀ i j v, lil_cells m !! (i, j) = Some v →
           (0 ≤ i < (lil_shape m).1)%Z ∧ (0 ≤ j < (lil_shape m).2)%Z.

Section Passes.

Context {Csr RawPred Labels : Type}.
Variable ensure_output_format : RawPred → outcome (list (list Z)).
Variable shape0 : Csr → nat.

#[local] Abbreviation clf := (classifier (Csr := Csr) (RawPred := RawPred)).

(** The pass of model [m] goes through: it has a classifier that answers
    on [X] with (once coerced) [sp], one row per sample and one column per
    label of group [m], whose indices are label indices. *)
Definition pass_ok (X : Csr) (N : Z) (p : list (list Z))
    (cs : list clf) (m : nat) (sp : list (list Z)) : Prop :=
  ∃ (c : clf) raw group,
    cs !! m = Some c ∧ c X = Ok raw ∧ ensure_output_format raw = Ok sp ∧
    p !! m = Some group ∧ length sp = shape0 X ∧
    Forall (λ row : list Z, length row = length group) sp ∧
    Forall (λ g : Z, (0 ≤ g < N)%Z) group.

(** The pass of model [m] raises [e] before it writes anything: there is
    no classifier at position [m], or the classifier raises, or the
    coercion of its answer does. *)
Definition pass_raises (X : Csr) (cs : list clf) (m : nat) (e : exn)
  : Prop :=
  match (cs !! m : option clf) with
  | None => e = IndexError
  | Some c =>
      match c X with
      | Raise e' => e = e'
      | Ok raw => ensure_output_format raw = Raise e
      end
  end.



(** The pass of model [m] has nothing to write: its classifier answers on
    [X] and the coerced answer has no non-zero entry. *)
Definition pass_silent (X : Csr) (cs : list clf) (m : nat) : Prop :=
  ∃ (c : clf) raw sp,
    cs !! m = Some c ∧ c X = Ok raw ∧ ensure_output_format raw = Ok sp ∧
    nonzero sp = [].

(** The two loops of [predict], on the coerced input and the allocated
    result. *)
Definition merge_loops (X : Csr) (result : nat)
  : M (Csr := Csr) (RawPred := RawPred) (Labels := Labels) unit :=
  model_count ← getattr "model_count";
  models ← range model_count;
  for_ models (model_pass ensure_output_format X result).

(** The attributes [predict] reads. *)
Definition predict_reads : list string :=
  ["label_count"; "model_count"; "classifiers_"; "partition_"].

(** Two worlds that agree on the attributes [predict] reads. *)
Definition same_reads (w1 w2 : world Csr RawPred Labels) : Prop :=
  ∀ name, name ∈ predict_reads → attrs w1 !! name = attrs w2 !! name.

(** ... and in which the matrix at [l1] of the one is the matrix at [l2]
    of the other. *)
Definition same_at (l1 l2 : nat) (w1 w2 : world Csr RawPred Labels) : Prop :=
  same_reads w1 w2 ∧ heap w1 !! l1 = heap w2 !! l2.

(** Two computations that, from worlds related by [R], end the same way
    in worlds related by [R]. *)
Definition agree {A} (R : world Csr RawPred Labels →
                         world Csr RawPred Labels → Prop)
    (m1 m2 : M (Csr := Csr) (RawPred := RawPred) (Labels := Labels) A)
  : Prop :=
  ∀ w1 w2, R w1 w2 → (m1 w1).2 = (m2 w2).2 ∧ R (m1 w1).1 (m2 w2).1.

End Passes.

(** ** More concrete settings *)
Module Edge.

Import Scenario.

(** The groups of [Scenario.ready] in the other order, each with its
    classifier. *)
Definition swapped : wd :=
  World (<["label_count" := VInt 3]>
           (<["model_count" := VInt 2]>
              (<["classifiers_" := VClassifiers [ones 1; ones 2]]>
                 (<["partition_" := VPartition [[1]; [0; 2]]%Z]> ∅)))) [].

(** Only the first group of [Scenario.ready], with its classifier. *)
Definition first_group : wd :=
  World (<["label_count" := VInt 3]>
           (<["model_count" := VInt 1]>
              (<["classifiers_" := VClassifiers [ones 2]]>
                 (<["partition_" := VPartition [[0; 2]]%Z]> ∅)))) [].

(** The two counts bound, no model, nothing else. *)
Definition no_models : wd :=
  World (<["label_count" := VInt 3]> (<["model_count" := VInt 0]> ∅)) [].

(** A classifier that fails. *)
Definition broken : classifier (Csr := nat) (RawPred := list (list Z)) :=
  λ _, Raise (Raised "shape-mismatch").

(** The second of two classifiers fails. *)
Definition second_broken : wd :=
  World (<["label_count" := VInt 3]>
           (<["model_count" := VInt 2]>
              (<["classifiers_" := VClassifiers [ones 2; broken]]>
                 (<["partition_" := VPartition [[0; 2]; [1]]%Z]> ∅)))) [].

(** Classifiers that predict no label, and no partition at all. *)
Definition silent : wd :=
  World (<["label_count" := VInt 3]>
           (<["model_count" := VInt 2]>
              (<["classifiers_" :=
                   VClassifiers [constant [0; 0]%Z; constant [0%Z]]]> ∅)))
        [].

(** [Scenario.ready] without its partition. *)
Definition no_partition : wd :=
  World (<["label_count" := VInt 3]>
           (<["model_count" := VInt 2]>
              (<["classifiers_" := VClassifiers classifiers_]> ∅))) [].

(** Only the label count bound; the two counts bound. *)
Definition label_count_only : wd :=
  World (<["label_count" := VInt 3]> ∅) [].
Definition counts_only : wd :=
  World (<["label_count" := VInt 3]> (<["model_count" := VInt 2]> ∅)) [].


(** [Scenario.ready] with other attributes beside those [predict] reads,
    and a matrix already allocated. *)
Definition ready_and_more : wd :=
  World (<["model_count_" := VInt 7]>
           (<["clusterer" := VClusterer fixed_clusterer]> (attrs ready)))
        [LilMatrix (4, 4)%Z ∅].

(** A new instance built with the default clusterer, [None]. *)
Definition default_clusterer : wd :=
  (__init__ (VEstimator base) VNone (VFlags (true, true)) (World ∅ [])).1.

(** A clusterer that follows the number of labels: one group per label. *)
Definition per_label : clusterer (Csr := nat) (Labels := nat * nat) :=
  λ _ y, Ok ((λ j, [Z.of_nat j]) <$> seq 0 y.2).

Definition fresh_per_label : wd :=
  (__init__ (VEstimator base) (VClusterer per_label)
     (VFlags (true, true)) (World ∅ [])).1.

End Edge.

(** * Facts *)

(** ** [nonzero()] *)

Lemma elem_of_nonzero_row (r r' c0 c : nat) (row : list Z) :
  (r', c) ∈ nonzero_row r c0 row ↔
  r' = r ∧ ∃ k v, c = c0 + k ∧ row !! k = Some v ∧ v ≠ 0%Z.
Proof.
  revert c0. induction row as [|v row IH]; intros c0; simpl.
  - split; [by intros ?%elem_of_nil | by intros (_ & k & ? & _ & ? & _)].
  - destruct (Z.eqb_spec v 0) as [->|Hv].
    + rewrite IH. split.
      * intros (-> & k & v' & -> & Hk & Hv'). split; [done|].
        exists (S k), v'. split_and!; [lia|done|done].
      * intros (-> & [|k] & v' & -> & Hk & Hv'); simplify_eq/=.
        split; [done|]. exists k, v'. split_and!; [lia|done|done].
    + rewrite elem_of_cons, IH. split.
      * intros [?|(-> & k & v' & -> & Hk & Hv')]; simplify_eq.
        -- split; [done|]. exists 0, v. split_and!; [lia|done|done].
        -- split; [done|]. exists (S k), v'. split_and!; [lia|done|done].
      * intros (-> & [|k] & v' & -> & Hk & Hv'); simplify_eq/=.
        -- left. f_equal. lia.
        -- right. split; [done|]. exists k, v'. split_and!; [lia|done|done].
Qed.

Lemma elem_of_nonzero_from (r0 r c : nat) (rows : list (list Z)) :
  (r, c) ∈ nonzero_from r0 rows ↔
  ∃ k row v, r = r0 + k ∧ rows !! k = Some row ∧ row !! c = Some v ∧ v ≠ 0%Z.
Proof.
  revert r0. induction rows as [|row rows IH]; intros r0; simpl.
  - split; [by intros ?%elem_of_nil | by intros (k & ? & ? & _ & ? & _)].
  - rewrite elem_of_app, elem_of_nonzero_row, IH. split.
    + intros [(-> & k & v & -> & Hk & Hv)|(k & row' & v & -> & Hk & Hc & Hv)].
      * exists 0, row, v. split_and!; [lia|done|done|done].
      * exists (S k), row', v. split_and!; [lia|done|done|done].
    + intros ([|k] & row' & v & -> & Hk & Hc & Hv); simplify_eq/=.
      * left. split; [lia|]. exists c, v. done.
      * right. exists k, row', v. split_and!; [lia|done|done|done].
Qed.

Lemma elem_of_nonzero (sp : list (list Z)) (r c : nat) :
  (r, c) ∈ nonzero sp ↔ pred_get sp r c ≠ 0%Z.
Proof.
  unfold nonzero, pred_get. rewrite elem_of_nonzero_from. split.
  - intros (k & row & v & -> & Hk & Hc & Hv). simpl in *.
    by rewrite Hk; simpl; rewrite Hc.
  - intros Hne. destruct (sp !! r) as [row|] eqn:Hr; simpl in Hne; [|done].
    destruct (row !! c) as [v|] eqn:Hc; simpl in Hne; [|done].
    exists r, row, v. done.
Qed.

(** A non-zero entry lies inside the matrix. *)
Lemma nonzero_in_shape (sp : list (list Z)) (n k r c : nat) :
  length sp = n → Forall (λ row : list Z, length row = k) sp →
  (r, c) ∈ nonzero sp → r < n ∧ c < k.
Proof.
  intros Hn Hk. unfold nonzero. rewrite elem_of_nonzero_from.
  intros (i & row & v & -> & Hi & Hc & _). simpl. split.
  - rewrite <- Hn. by eapply lookup_lt_Some.
  - rewrite Forall_forall in Hk.
    rewrite <- (Hk row); [by eapply lookup_lt_Some|].
    apply list_elem_of_lookup. eauto.
Qed.

(** ** The merge *)

Lemma lookup_mark_all (cells : gmap (Z * Z) Z) (keys : list (Z * Z)) k :
  mark_all cells keys !! k =
  if decide (k ∈ keys) then Some 1%Z else cells !! k.
Proof.
  unfold mark_all. revert cells.
  induction keys as [|k' keys IH]; intros cells; cbn [foldl].
  - by rewrite decide_False by apply not_elem_of_nil.
  - rewrite IH. destruct (decide (k ∈ keys)) as [Hin|Hout].
    + by rewrite decide_True by (by right).
    + destruct (decide (k = k')) as [->|Hne].
      * rewrite decide_True by left. apply lookup_insert_eq.
      * rewrite decide_False by (rewrite elem_of_cons; tauto).
        by apply lookup_insert_ne.
Qed.

Lemma mark_all_app (cells : gmap (Z * Z) Z) (ks1 ks2 : list (Z * Z)) :
  mark_all cells (ks1 ++ ks2) = mark_all (mark_all cells ks1) ks2.
Proof. apply foldl_app. Qed.

Lemma mark_app (m : lil_matrix) (ks1 ks2 : list (Z * Z)) :
  mark m (ks1 ++ ks2) = mark (mark m ks1) ks2.
Proof. unfold mark. simpl. by rewrite mark_all_app. Qed.

Lemma mark_nil (m : lil_matrix) : mark m [] = m.
Proof. by destruct m. Qed.

Lemma mark_cons (m : lil_matrix) k (ks : list (Z * Z)) :
  mark m (k :: ks) = mark (mark m [k]) ks.
Proof. done. Qed.

Lemma elem_of_targets (group : list Z) (coords : list (nat * nat)) i j :
  (i, j) ∈ targets group coords ↔
  ∃ r c, (r, c) ∈ coords ∧ group !! c = Some j ∧ i = Z.of_nat r.
Proof.
  unfold targets. rewrite list_elem_of_omap. split.
  - intros ([r c] & Hin & Heq). simpl in Heq.
    destruct (group !! c) as [g|] eqn:Hg; simplify_eq/=. eauto.
  - intros (r & c & Hin & Hg & ->). exists (r, c). split; [done|].
    simpl. by rewrite Hg.
Qed.

(** In bounds with non-negative indices, item assignment of 1 is an
    insertion at that very cell. *)
Lemma lil_insert_in_bounds (m : lil_matrix) (M N i j : Z) :
  lil_shape m = (M, N) → (0 ≤ i < M)%Z → (0 ≤ j < N)%Z →
  lil_insert m i j 1 = Ok (mark m [(i, j)]).
Proof.
  intros Hs Hi Hj. unfold lil_insert, mark. rewrite Hs.
  destruct (Z.ltb_spec i (- M)), (Z.leb_spec M i), (Z.ltb_spec i 0),
    (Z.ltb_spec j (- N)), (Z.leb_spec N j), (Z.ltb_spec j 0);
    simpl; try lia; reflexivity.
Qed.

Section Facts.

Context {RawX Csr RawPred Labels : Type}.
Variable ensure_input_format : RawX → outcome Csr.
Variable ensure_output_format : RawPred → outcome (list (list Z)).
Variable shape0 : Csr → nat.
Variable shape1 : Labels → nat.

#[local] Abbreviation wd := (world Csr RawPred Labels).

Lemma set_heap_id (w : wd) : set_heap (heap w) w = w.
Proof. by destruct w. Qed.

Lemma set_heap_twice (h1 h2 : list lil_matrix) (w : wd) :
  set_heap h2 (set_heap h1 w) = set_heap h2 w.
Proof. done. Qed.

(** *** Running [predict] on a trained instance *)

Lemma scatter_run (w : wd) l model p group mtx (M N : Z) (r c : nat) g :
  attrs w !! "partition_" = Some (VPartition p) →
  p !! model = Some group → group !! c = Some g →
  heap w !! l = Some mtx → lil_shape mtx = (M, N) →
  (Z.of_nat r < M)%Z → (0 ≤ g < N)%Z →
  scatter l model (r, c) w =
    (set_heap (<[l := mark mtx [(Z.of_nat r, g)]]> (heap w)) w, Ok tt).
Proof.
  intros Hp Hm Hc Hl Hs Hr Hg.
  unfold scatter, mbind, M_bind, getattr. rewrite Hp.
  unfold label_at. simpl. rewrite Hm, Hc. simpl.
  unfold setitem. rewrite Hl.
  by rewrite (lil_insert_in_bounds mtx M N) by (done || lia).
Qed.

Lemma for_scatter_run (coords : list (nat * nat)) :
  ∀ (w : wd) l model p group mtx (M N : Z),
  attrs w !! "partition_" = Some (VPartition p) →
  p !! model = Some group →
  heap w !! l = Some mtx → lil_shape mtx = (M, N) →
  Forall (λ rc : nat * nat,
            (Z.of_nat rc.1 < M)%Z ∧
            ∃ g, group !! rc.2 = Some g ∧ (0 ≤ g < N)%Z) coords →
  for_ coords (scatter l model) w =
    (set_heap (<[l := mark mtx (targets group coords)]> (heap w)) w, Ok tt).
Proof.
  induction coords as [|[r c] coords IH];
    intros w l model p group mtx M N Hp Hm Hl Hs Hall.
  - simpl. rewrite mark_nil, list_insert_id by done.
    by rewrite set_heap_id.
  - apply Forall_cons in Hall as [(Hr & g & Hg & Hrange) Hall].
    simpl in Hr, Hg.
    cbn [for_]. unfold mbind at 1, M_bind at 1.
    rewrite (scatter_run w l model p group mtx M N r c g) by done.
    cbv beta iota.
    rewrite (IH _ l model p group (mark mtx [(Z.of_nat r, g)]) M N);
      try done.
    + rewrite set_heap_twice. simpl. rewrite list_insert_insert_eq.
      unfold targets. cbn [omap]. simpl. rewrite Hg. simpl.
      by rewrite (mark_cons mtx).
    + simpl. apply list_lookup_insert_eq. by eapply lookup_lt_Some.
Qed.

Lemma model_pass_run (w : wd) l m X p cs preds group sp mtx (N : Z) :
  attrs w !! "classifiers_" = Some (VClassifiers cs) →
  attrs w !! "partition_" = Some (VPartition p) →
  Forall (Forall (λ g : Z, (0 ≤ g < N)%Z)) p →
  answers ensure_output_format shape0 X p cs preds →
  p !! m = Some group → preds !! m = Some sp →
  heap w !! l = Some mtx → lil_shape mtx = (Z.of_nat (shape0 X), N) →
  model_pass ensure_output_format X l m w =
    (set_heap (<[l := mark mtx (targets group (nonzero sp))]> (heap w)) w,
     Ok tt).
Proof.
  intros Hcs Hp Hrange [Hans Hshape] Hm Hsp Hl Hs.
  destruct (Forall2_lookup_r _ _ _ _ _ Hans Hsp)
    as (c & Hc & raw & Hraw & Hout).
  destruct (Forall2_lookup_lr _ _ _ _ _ _ Hshape Hm Hsp) as [Hrows Hcols].
  unfold model_pass, mbind, M_bind, getattr. rewrite Hcs.
  unfold classifier_at. simpl. rewrite Hc. simpl.
  unfold lift. rewrite Hraw, Hout.
  apply (for_scatter_run _ w l m p group mtx (Z.of_nat (shape0 X)) N);
    try done.
  apply Forall_forall. intros [r c'] Hin.
  destruct (nonzero_in_shape sp _ _ r c' Hrows Hcols Hin) as [Hr Hc'].
  simpl. split; [lia|].
  destruct (lookup_lt_is_Some_2 group c' Hc') as [g Hg].
  exists g. split; [done|].
  rewrite Forall_forall in Hrange.
  assert (Hgroup : group ∈ p) by (apply list_elem_of_lookup; eauto).
  specialize (Hrange group Hgroup). rewrite Forall_forall in Hrange.
  apply Hrange. apply list_elem_of_lookup. eauto.
Qed.

Lemma for_model_pass_run (ms : list nat) :
  ∀ (w : wd) l X p cs preds mtx (N : Z),
  attrs w !! "classifiers_" = Some (VClassifiers cs) →
  attrs w !! "partition_" = Some (VPartition p) →
  Forall (Forall (λ g : Z, (0 ≤ g < N)%Z)) p →
  answers ensure_output_format shape0 X p cs preds →
  Forall (λ m, m < length p) ms →
  heap w !! l = Some mtx → lil_shape mtx = (Z.of_nat (shape0 X), N) →
  for_ ms (model_pass ensure_output_format X l) w =
    (set_heap
       (<[l := mark mtx (mjoin (model_targets p preds <$> ms))]> (heap w))
       w, Ok tt).
Proof.
  induction ms as [|m ms IH];
    intros w l X p cs preds mtx N Hcs Hp Hrange Hans Hms Hl Hs.
  - simpl. rewrite mark_nil, list_insert_id by done.
    by rewrite set_heap_id.
  - apply Forall_cons in Hms as [Hm Hms].
    destruct (lookup_lt_is_Some_2 p m Hm) as [group Hgroup].
    assert (Hlen : length p = length preds)
      by (destruct Hans as [_ H]; by eapply Forall2_length).
    destruct (lookup_lt_is_Some_2 preds m) as [sp Hsp]; [lia|].
    cbn [for_]. unfold mbind at 1, M_bind at 1.
    rewrite (model_pass_run w l m X p cs preds group sp mtx N) by done.
    cbv beta iota.
    rewrite (IH _ l X p cs preds (mark mtx (targets group (nonzero sp))) N);
      try done.
    + rewrite set_heap_twice. simpl. rewrite list_insert_insert_eq.
      unfold model_targets at 2. rewrite Hgroup, Hsp.
      by rewrite mark_app.
    + simpl. apply list_lookup_insert_eq. by eapply lookup_lt_Some.
Qed.

Lemma elem_of_all_targets p preds (i j : Z) :
  (i, j) ∈ all_targets p preds ↔ asserted p preds i j.
Proof.
  unfold all_targets, asserted. rewrite list_elem_of_join. split.
  - intros (ks & Hin & (m & -> & Hm)%list_elem_of_fmap).
    unfold model_targets in Hin.
    destruct (p !! m) as [group|] eqn:Hgroup;
      [|by apply elem_of_nil in Hin].
    destruct (preds !! m) as [sp|] eqn:Hsp; [|by apply elem_of_nil in Hin].
    apply elem_of_targets in Hin as (r & c & Hnz & Hc & ->).
    apply elem_of_nonzero in Hnz. by exists m, group, sp, r, c.
  - intros (m & group & sp & r & c & Hgroup & Hsp & Hc & -> & Hnz).
    exists (model_targets p preds m). split.
    + unfold model_targets. rewrite Hgroup, Hsp.
      apply elem_of_targets. exists r, c. by rewrite elem_of_nonzero.
    + apply list_elem_of_fmap. exists m. split; [done|].
      apply elem_of_seq. apply lookup_lt_Some in Hgroup. lia.
Qed.

(** On a trained instance whose classifiers answer, [predict] returns a
    new matrix of the expected shape in which exactly the asserted cells
    hold 1; the instance itself is as before. *)
Lemma predict_trained (w : wd) X X' N p cs preds :
  ensure_input_format X = Ok X' →
  trained w N p cs →
  answers ensure_output_format shape0 X' p cs preds →
  ∃ res,
    predict ensure_input_format ensure_output_format shape0 X w =
      (set_heap (heap w ++ [res]) w, Ok (length (heap w))) ∧
    lil_shape res = (Z.of_nat (shape0 X'), N) ∧
    ∀ i j, (asserted p preds i j ∧ lil_get res i j = 1%Z) ∨
           (¬ asserted p preds i j ∧ lil_get res i j = 0%Z).
Proof.
  intros HX [HN Hlc Hmc Hcs Hp Hlen Hrange] Hans.
  set (m0 := LilMatrix (Z.of_nat (shape0 X'), N) ∅).
  exists (mark m0 (all_targets p preds)). split; [|split].
  - unfold predict, mbind, M_bind, lift. rewrite HX.
    unfold getattr at 1. rewrite Hlc.
    unfold lil_matrix_new, mbind, M_bind, lift, new_lil.
    destruct (Z.ltb_spec (Z.of_nat (shape0 X')) 0); [lia|].
    destruct (Z.ltb_spec N 0); [lia|]. simpl.
    unfold getattr. simpl. rewrite Hmc. simpl. rewrite Nat2Z.id.
    fold m0.
    rewrite (for_model_pass_run _ _ (length (heap w)) X' p cs preds m0 N);
      try done.
    + rewrite set_heap_twice. simpl. unfold mret, M_ret. do 2 f_equal.
      rewrite insert_app_r_alt, Nat.sub_diag by done. done.
    + apply Forall_forall. intros m. rewrite elem_of_seq. lia.
    + simpl. by rewrite lookup_app_r, Nat.sub_diag.
  - done.
  - intros i j. unfold lil_get, mark. simpl. rewrite lookup_mark_all.
    destruct (decide ((i, j) ∈ all_targets p preds)) as [Hin|Hout].
    + left. by rewrite <- elem_of_all_targets.
    + right. by rewrite <- elem_of_all_targets, lookup_empty.
Qed.


(** *** Invariants of a call to [predict] *)

#[local] Abbreviation ones_at l :=
  (binary_at (Csr := Csr) (RawPred := RawPred) (Labels := Labels) l).

Lemma preserves_bind {A B} (P : wd → Prop) (m : M A) (k : A → M B) :
  preserves P m → (∀ a, preserves P (k a)) → preserves P (m ≫= k).
Proof.
  intros Hm Hk w HP. unfold mbind, M_bind. specialize (Hm w HP).
  destruct (m w) as [w' [a|e]]; simpl in *; [|done]. by apply Hk.
Qed.

Lemma preserves_for {A} (P : wd → Prop) (body : A → M unit) (l : list A) :
  (∀ x, preserves P (body x)) → preserves P (for_ l body).
Proof.
  intros Hbody. induction l as [|x l IH]; [by intros w HP|].
  cbn [for_]. apply preserves_bind; [apply Hbody|]. intros _. apply IH.
Qed.

Lemma preserves_getattr (P : wd → Prop) name : preserves P (getattr name).
Proof. intros w HP. unfold getattr. by destruct (attrs w !! name). Qed.

Lemma preserves_lift {A} (P : wd → Prop) (o : outcome A) :
  preserves P (lift o).
Proof. by intros w HP. Qed.

(** The loops change the world through item assignment only. *)
Lemma scatter_preserves (P : wd → Prop) l model rc :
  (∀ row col, preserves P (setitem l row col 1)) →
  preserves P (scatter l model rc).
Proof.
  intros Hset. unfold scatter.
  apply preserves_bind; [apply preserves_getattr|].
  intros v. apply preserves_bind.
  - intros w HP. unfold label_at. destruct v; try done.
    destruct (p !! model) as [group|]; [|done].
    by destruct (group !! rc.2).
  - intros g. apply Hset.
Qed.

Lemma model_pass_preserves (P : wd → Prop) X l model :
  (∀ row col, preserves P (setitem l row col 1)) →
  preserves P (model_pass ensure_output_format X l model).
Proof.
  intros Hset. unfold model_pass.
  apply preserves_bind; [apply preserves_getattr|].
  intros v. apply preserves_bind.
  { intros w HP. unfold classifier_at. destruct v; try done.
    by destruct (cs !! model). }
  intros clf. apply preserves_bind; [apply preserves_lift|].
  intros raw. apply preserves_bind; [apply preserves_lift|].
  intros sp. apply preserves_for. intros rc. by apply scatter_preserves.
Qed.

(** What is true once the result matrix is allocated, and kept by item
    assignment into it, is true when [predict] returns; and [predict]
    returns the position of that matrix.  A call that fails before the
    allocation leaves the world as it is. *)
Lemma predict_preserves (P : wd → Prop) (w : wd) X :
  (∀ row col, preserves P (setitem (length (heap w)) row col 1)) →
  (∀ rows cols, P (set_heap (heap w ++ [LilMatrix (rows, cols) ∅]) w)) →
  match predict ensure_input_format ensure_output_format shape0 X w with
  | (w', Ok l) => l = length (heap w) ∧ P w'
  | (w', Raise e) => w' = w ∨ P w'
  end.
Proof.
  intros Hset Hnew.
  unfold predict, mbind at 1, M_bind at 1, lift.
  destruct (ensure_input_format X) as [X'|e]; [|by left].
  unfold mbind at 1, M_bind at 1, getattr at 1.
  destruct (attrs w !! "label_count") as [v|]; [|by left].
  unfold mbind at 1, M_bind at 1, lil_matrix_new.
  destruct v; try by left.
  unfold mbind at 1, M_bind at 1, lift, new_lil.
  destruct (_ || _); [by left|].
  unfold alloc. specialize (Hnew (Z.of_nat (shape0 X')) n).
  set (w1 := set_heap _ w) in *.
  unfold mbind at 1, M_bind at 1, getattr at 1.
  destruct (attrs w1 !! "model_count") as [v|]; [|by right].
  unfold mbind at 1, M_bind at 1, range.
  destruct v; try by right. unfold mret at 1, M_ret at 1.
  unfold mbind, M_bind.
  pose proof (preserves_for P
                (model_pass ensure_output_format X' (length (heap w)))
                (seq 0 (Z.to_nat n0))
                (λ x, model_pass_preserves P X' _ x Hset) w1 Hnew) as H2.
  destruct (for_ _ _ w1) as [w2 [[]|e]]; [by split|by right].
Qed.

(** *** Nothing but ones is ever stored *)

Lemma lil_insert_one (m m' : lil_matrix) (i j : Z) :
  lil_insert m i j 1 = Ok m' →
  ∃ k, lil_shape m' = lil_shape m ∧ lil_cells m' = <[k := 1%Z]> (lil_cells m).
Proof.
  unfold lil_insert. destruct (lil_shape m) as [M N] eqn:Hs.
  destruct (_ || _); [done|]. destruct (_ || _); [done|].
  intros [= <-]. by eexists.
Qed.

Lemma setitem_binary l (row col : Z) :
  preserves (ones_at l) (setitem l row col 1).
Proof.
  intros w (m & Hm & Hones). unfold setitem. rewrite Hm.
  destruct (lil_insert m row col 1) as [m'|e] eqn:Hins;
    [|by exists m].
  apply lil_insert_one in Hins as (k & _ & Hcells).
  exists m'. cbn [fst heap set_heap]. split.
  - apply list_lookup_insert_eq. by eapply lookup_lt_Some.
  - intros k' v. rewrite Hcells, lookup_insert.
    case_decide; [by intros [= <-]|apply Hones].
Qed.

(** Whatever the instance, a matrix that [predict] returns stores
    nothing but ones. *)
Lemma predict_binary (w w' : wd) X l :
  predict ensure_input_format ensure_output_format shape0 X w = (w', Ok l) →
  binary_at l w'.
Proof.
  intros Hrun.
  pose proof (predict_preserves (ones_at (length (heap w))) w X
                (setitem_binary _)) as Hinv.
  rewrite Hrun in Hinv. destruct Hinv as [-> Hones]; [|done].
  intros rows cols. exists (LilMatrix (rows, cols) ∅). split; [|done].
  simpl. by rewrite lookup_app_r, Nat.sub_diag.
Qed.

(** *** What the groups own *)

Lemma asserted_covered p preds (i j : Z) : asserted p preds i j → covered p j.
Proof.
  intros (m & group & sp & r & c & Hgroup & _ & Hc & _).
  exists group. split; apply list_elem_of_lookup; eauto.
Qed.

Lemma nodup_join_owner (p : list (list Z)) :
  ∀ (m m' : nat) group group' (c c' : nat) (g : Z),
  NoDup (mjoin p) →
  p !! m = Some group → group !! c = Some g →
  p !! m' = Some group' → group' !! c' = Some g →
  m = m' ∧ c = c'.
Proof.
  induction p as [|x p IH]; intros m m' group group' c c' g Hnd; [done|].
  change (mjoin (x :: p)) with (x ++ mjoin p) in Hnd.
  apply NoDup_app in Hnd as (Hx & Hdisj & Hp).
  assert (Hjoin : ∀ k grp (i : nat), p !! k = Some grp → grp !! i = Some g →
                    g ∈ mjoin p).
  { intros k grp i Hk Hi. apply list_elem_of_join. exists grp.
    split; apply list_elem_of_lookup; eauto. }
  destruct m as [|m], m' as [|m']; simpl; intros Hm Hc Hm' Hc'.
  - simplify_eq. split; [done|]. exact (NoDup_lookup _ c c' g Hx Hc Hc').
  - simplify_eq. exfalso. eapply Hdisj; [|by eapply Hjoin].
    apply list_elem_of_lookup. eauto.
  - simplify_eq. exfalso. eapply Hdisj; [|by eapply Hjoin].
    apply list_elem_of_lookup. eauto.
  - destruct (IH m m' group group' c c' g Hp Hm Hc Hm' Hc') as [-> ->].
    done.
Qed.

(** One pass writes only into the columns of its own group. *)
Lemma model_pass_owned (w : wd) X N p cs preds l m group mtx :
  attrs w !! "classifiers_" = Some (VClassifiers cs) →
  attrs w !! "partition_" = Some (VPartition p) →
  length cs = length p →
  Forall (Forall (λ g : Z, (0 ≤ g < N)%Z)) p →
  answers ensure_output_format shape0 X p cs preds →
  p !! m = Some group →
  heap w !! l = Some mtx → lil_shape mtx = (Z.of_nat (shape0 X), N) →
  ∃ mtx',
    model_pass ensure_output_format X l m w =
      (set_heap (<[l := mtx']> (heap w)) w, Ok tt) ∧
    ∀ i g, g ∉ group → lil_get mtx' i g = lil_get mtx i g.
Proof.
  intros Hcs Hp Hlen Hrange Hans Hgroup Hl Hs.
  assert (Hlen' : length p = length preds)
    by (destruct Hans as [_ H]; by eapply Forall2_length).
  destruct (lookup_lt_is_Some_2 preds m) as [sp Hsp].
  { apply lookup_lt_Some in Hgroup. lia. }
  exists (mark mtx (targets group (nonzero sp))). split.
  - by apply (model_pass_run w l m X p cs preds group sp mtx N).
  - intros i g Hg. unfold lil_get, mark. simpl. rewrite lookup_mark_all.
    rewrite decide_False; [done|].
    intros (r & c & _ & Hc & _)%elem_of_targets.
    apply Hg. apply list_elem_of_lookup. eauto.
Qed.

(** *** The claims about [predict] on a trained instance *)

(** C1.  On a trained instance whose partition is a true partition (every
    label index in exactly one group, once), [predict] returns a matrix
    that holds, at row [r] and at the label [g] found at local position
    [c] of group [m], the 0/1 value the classifier of group [m] predicts
    at row [r] and local column [c] (0 where it predicts 0, 1 where it
    predicts anything else, hence the predicted value itself when that
    is 0 or 1); and the pass of a group leaves every column of a label
    outside the group as it was. *)
Theorem predict_true_partition (w : wd) X X' N p cs preds :
  ensure_input_format X = Ok X' →
  trained w N p cs →
  answers ensure_output_format shape0 X' p cs preds →
  true_partition N p →
  ∃ res,
    predict ensure_input_format ensure_output_format shape0 X w =
      (set_heap (heap w ++ [res]) w, Ok (length (heap w))) ∧
    (∀ (m : nat) group sp (c : nat) (g : Z) (r : nat),
       p !! m = Some group → preds !! m = Some sp → group !! c = Some g →
       lil_get res (Z.of_nat r) g = indicator (pred_get sp r c) ∧
       (pred_get sp r c = 0%Z ∨ pred_get sp r c = 1%Z →
        lil_get res (Z.of_nat r) g = pred_get sp r c)) ∧
    (∀ (m : nat) group (w1 : wd) (l : nat) mtx,
       p !! m = Some group → attrs w1 = attrs w →
       heap w1 !! l = Some mtx →
       lil_shape mtx = (Z.of_nat (shape0 X'), N) →
       ∃ mtx',
         model_pass ensure_output_format X' l m w1 =
           (set_heap (<[l := mtx']> (heap w1)) w1, Ok tt) ∧
         ∀ i g, g ∉ group → lil_get mtx' i g = lil_get mtx i g).
Proof.
  intros HX Htr Hans [Hnd _].
  destruct (predict_trained w X X' N p cs preds HX Htr Hans)
    as (res & Hrun & _ & Hcells).
  exists res. split; [done|]. split.
  - intros m group sp c g r Hgroup Hsp Hc.
    assert (Hind : lil_get res (Z.of_nat r) g = indicator (pred_get sp r c)).
    { unfold indicator.
      destruct (Hcells (Z.of_nat r) g) as [[Has ->]|[Hnot ->]].
      - destruct Has as (m' & group' & sp' & r' & c' & Hgroup' & Hsp' & Hc'
                         & Hr & Hnz).
        apply Nat2Z.inj in Hr as <-.
        destruct (nodup_join_owner p m m' group group' c c' g)
          as [<- <-]; try done.
        simplify_eq. by destruct (Z.eqb_spec (pred_get sp r c) 0).
      - destruct (Z.eqb_spec (pred_get sp r c) 0) as [|Hnz]; [done|].
        exfalso. apply Hnot. by exists m, group, sp, r, c. }
    split; [done|]. rewrite Hind. unfold indicator.
    by intros [-> | ->].
  - intros m group w1 l mtx Hgroup Hattrs Hl Hs.
    destruct Htr as [_ _ _ Hcs Hp Hlen Hrange].
    rewrite <- Hattrs in Hcs, Hp.
    by apply (model_pass_owned w1 X' N p cs preds l m group mtx).
Qed.

(** C2.  Every entry of a matrix that [predict] returns is 0 or 1,
    whatever the groups.  On a trained instance, with groups that may
    overlap, [predict] returns a matrix in which a label that two groups
    both assert as 1 for a row holds exactly 1. *)
Theorem predict_binary_or (w : wd) X :
  (∀ w' l,
     predict ensure_input_format ensure_output_format shape0 X w
       = (w', Ok l) →
     ∃ res, heap w' !! l = Some res ∧
            ∀ i j, lil_get res i j = 0%Z ∨ lil_get res i j = 1%Z) ∧
  (∀ X' N p cs preds,
     ensure_input_format X = Ok X' →
     trained w N p cs →
     answers ensure_output_format shape0 X' p cs preds →
     ∃ res,
       predict ensure_input_format ensure_output_format shape0 X w =
         (set_heap (heap w ++ [res]) w, Ok (length (heap w))) ∧
       ∀ (m1 m2 : nat) group1 group2 sp1 sp2 (c1 c2 R : nat) (L : Z),
         m1 ≠ m2 →
         p !! m1 = Some group1 → preds !! m1 = Some sp1 →
         p !! m2 = Some group2 → preds !! m2 = Some sp2 →
         group1 !! c1 = Some L → group2 !! c2 = Some L →
         pred_get sp1 R c1 = 1%Z → pred_get sp2 R c2 = 1%Z →
         lil_get res (Z.of_nat R) L = 1%Z).
Proof.
  split.
  - intros w' l (res & Hres & Hones)%predict_binary.
    exists res. split; [done|]. intros i j. unfold lil_get.
    destruct (lil_cells res !! (i, j)) as [v|] eqn:Hv; [|by left].
    right. simpl. by eapply Hones.
  - intros X' N p cs preds HX Htr Hans.
    destruct (predict_trained w X X' N p cs preds HX Htr Hans)
      as (res & Hrun & _ & Hcells).
    exists res. split; [done|].
    intros m1 m2 group1 group2 sp1 sp2 c1 c2 R L _ Hg1 Hsp1 _ _ Hc1 _ H1 _.
    destruct (Hcells (Z.of_nat R) L) as [[_ ->]|[Hnot _]]; [done|].
    exfalso. apply Hnot. exists m1, group1, sp1, R, c1.
    split_and!; try done. by rewrite H1.
Qed.

(** C3.  On a trained instance, whether or not the partition covers every
    label, [predict] returns its matrix without an error, and the column
    of a label that is a member of no group is 0 in every row. *)
Theorem predict_uncovered_zero (w : wd) X X' N p cs preds :
  ensure_input_format X = Ok X' →
  trained w N p cs →
  answers ensure_output_format shape0 X' p cs preds →
  ∃ res,
    predict ensure_input_format ensure_output_format shape0 X w =
      (set_heap (heap w ++ [res]) w, Ok (length (heap w))) ∧
    ∀ g : Z, ¬ covered p g → ∀ i : Z, lil_get res i g = 0%Z.
Proof.
  intros HX Htr Hans.
  destruct (predict_trained w X X' N p cs preds HX Htr Hans)
    as (res & Hrun & _ & Hcells).
  exists res. split; [done|].
  intros g Hg i. destruct (Hcells i g) as [[Has _]|[_ ->]]; [|done].
  exfalso. by eapply Hg, asserted_covered.
Qed.


(** *** What a call to [predict] leaves alone *)

Lemma undisturbed_refl b (w : wd) : undisturbed b w w.
Proof. done. Qed.

Lemma undisturbed_trans b (w1 w2 w3 : wd) :
  undisturbed b w1 w2 → undisturbed b w2 w3 → undisturbed b w1 w3.
Proof.
  intros (Ha & Hl & Hh) (Ha' & Hl' & Hh'). split_and!.
  - congruence.
  - lia.
  - intros i Hi. by rewrite Hh', Hh.
Qed.

Lemma setitem_undisturbed b l (row col x : Z) (w : wd) :
  b ≤ l → undisturbed b w (setitem l row col x w).1.
Proof.
  intros Hb. unfold setitem.
  destruct (heap w !! l) as [m|]; [|done].
  destruct (lil_insert m row col x) as [m'|e]; [|done].
  unfold undisturbed. cbn [fst set_heap heap attrs].
  split_and!; [done|by rewrite length_insert|].
  intros i Hi. apply list_lookup_insert_ne. lia.
Qed.

(** [predict] writes no attribute and touches no matrix that existed
    before the call; what it returns is the position past them. *)
Lemma predict_undisturbed (w : wd) X :
  match predict ensure_input_format ensure_output_format shape0 X w with
  | (w', o) =>
      undisturbed (length (heap w)) w w' ∧
      ∀ l, o = Ok l → l = length (heap w) ∧ l < length (heap w')
  end.
Proof.
  set (P := λ w' : wd, undisturbed (length (heap w)) w w' ∧
                       length (heap w) < length (heap w')).
  assert (Hset : ∀ row col,
            preserves P (setitem (length (heap w)) row col 1)).
  { intros row col w1 [Hund Hlen].
    pose proof (setitem_undisturbed (length (heap w))
                  (length (heap w)) row col 1 w1 (le_n _)) as Hstep.
    split; [by eapply undisturbed_trans|].
    destruct Hstep as (_ & Hlen' & _). lia. }
  assert (Hnew : ∀ rows cols,
            P (set_heap (heap w ++ [LilMatrix (rows, cols) ∅]) w)).
  { intros rows cols. unfold P, undisturbed. simpl.
    rewrite length_app. simpl. split_and!; [done|lia| |lia].
    intros i Hi. by apply lookup_app_l. }
  pose proof (predict_preserves P w X Hset Hnew) as Hinv.
  destruct (predict _ _ _ X w) as [w' [l|e]].
  - destruct Hinv as [-> [Hund Hlen]]. by split; [|intros ? [= <-]].
  - destruct Hinv as [->|[Hund _]]; by split.
Qed.

(** C10.  A call to [predict], whatever its outcome, leaves every
    attribute of the instance as it was and every matrix allocated
    before the call untouched.  A matrix it returns is a new object: it
    sits at a position that did not exist before the call, no attribute
    of the instance refers to it, and a later call returns yet another
    object and leaves this one as it is. *)
Theorem predict_frame (w : wd) X :
  attrs (predict ensure_input_format ensure_output_format shape0 X w).1
    = attrs w ∧
  (∀ i, i < length (heap w) →
     heap (predict ensure_input_format ensure_output_format shape0 X w).1
       !! i = heap w !! i) ∧
  (∀ l w',
     predict ensure_input_format ensure_output_format shape0 X w
       = (w', Ok l) →
     heap w !! l = None ∧ is_Some (heap w' !! l) ∧
     (closed w → ∀ name, attrs w' !! name ≠ Some (VRef l)) ∧
     (∀ X2 l2 w'',
        predict ensure_input_format ensure_output_format shape0 X2 w'
          = (w'', Ok l2) →
        l2 ≠ l ∧ attrs w'' = attrs w ∧ heap w'' !! l = heap w' !! l)).
Proof.
  pose proof (predict_undisturbed w X) as Hpre.
  destruct (predict _ _ _ X w) as [w1 o] eqn:Hrun.
  destruct Hpre as [(Ha & _ & Hh) Hl]. simpl.
  split; [done|]. split; [done|].
  intros l w' [= <- ->].
  destruct (Hl l eq_refl) as [-> Hlt]. split_and!.
  - by apply lookup_ge_None_2.
  - by apply lookup_lt_is_Some_2.
  - intros Hclosed name Hname. rewrite Ha in Hname.
    apply Hclosed in Hname. lia.
  - intros X2 l2 w'' Hrun2.
    pose proof (predict_undisturbed w1 X2) as Hpre.
    rewrite Hrun2 in Hpre. destruct Hpre as [(Ha2 & _ & Hh2) Hl2].
    destruct (Hl2 l2 eq_refl) as [-> _]. split_and!.
    + lia.
    + congruence.
    + by apply Hh2.
Qed.


(** *** Partition generation *)

(** What [_generate_partition] does, by the value of [self.clusterer]. *)
Lemma generate_partition_run (w : wd) X y :
  _generate_partition shape1 X y w =
    match attrs w !! "clusterer" with
    | None => (w, Raise (AttributeError "clusterer"))
    | Some (VClusterer k) =>
        match k X y with
        | Ok p =>
            (set_attrs
               (<["_label_count" := VInt (Z.of_nat (shape1 y))]>
                  (<["model_count_" := VInt (Z.of_nat (length p))]>
                     (<["partition_" := VPartition p]> (attrs w)))) w,
             Ok tt)
        | Raise e => (w, Raise e)
        end
    | Some _ => (w, Raise (AttributeError "fit_predict"))
    end.
Proof.
  unfold _generate_partition, mbind, M_bind, getattr.
  destruct (attrs w !! "clusterer") as [v|]; [|done].
  destruct v; try done. unfold fit_predict, lift.
  destruct (k X y) as [p|e]; [|done].
  unfold setattr. cbn [attrs set_attrs]. by rewrite lookup_insert_eq.
Qed.

(** An instance without [label_count] stays without it. *)
Lemma generate_partition_unbound (w : wd) X y (name : string) :
  name ≠ "partition_" → name ≠ "model_count_" → name ≠ "_label_count" →
  attrs (_generate_partition shape1 X y w).1 !! name = attrs w !! name.
Proof.
  intros H1 H2 H3. rewrite generate_partition_run.
  destruct (attrs w !! "clusterer") as [v|]; [|done].
  destruct v; try done. destruct (k X y) as [p|e]; [|done].
  cbn [fst attrs set_attrs]. by rewrite !lookup_insert_ne.
Qed.

(** *** Training, as modelled *)

Lemma train_groups_world (b : estimator) X y (p : list (list Z)) (w : wd) :
  (train_groups b X y p w).1 = w.
Proof.
  revert w. induction p as [|group p IH]; intros w; [done|].
  cbn [train_groups]. unfold mbind at 1, M_bind at 1, lift.
  destruct (b X y group) as [c|e]; [|done].
  unfold mbind, M_bind. specialize (IH w).
  destruct (train_groups b X y p w) as [w' [cs|e]]; simpl in *; by subst.
Qed.

(** [fit] is [_generate_partition] followed by a step that binds
    [classifiers_] and nothing else. *)
Lemma fit_run (w w' : wd) X y :
  fit ensure_input_format shape1 X y w = (w', Ok tt) →
  ∃ X' w1 cs,
    ensure_input_format X = Ok X' ∧
    _generate_partition shape1 X' y w = (w1, Ok tt) ∧
    w' = set_attrs (<["classifiers_" := VClassifiers cs]> (attrs w1)) w1.
Proof.
  unfold fit, mbind at 1, M_bind at 1, lift.
  destruct (ensure_input_format X) as [X'|e]; [|done].
  unfold mbind at 1, M_bind at 1.
  destruct (_generate_partition shape1 X' y w) as [w1 [[]|e]] eqn:Hgen;
    [|done].
  unfold train_per_group, mbind at 1, M_bind at 1, getattr at 1.
  destruct (attrs w1 !! "classifier") as [v|]; [|done].
  unfold mbind at 1, M_bind at 1, getattr at 1.
  destruct (attrs w1 !! "partition_") as [v'|]; [|done].
  destruct v; try done. destruct v'; try done.
  unfold mbind, M_bind.
  pose proof (train_groups_world b X' y p w1) as Hw.
  destruct (train_groups b X' y p w1) as [w2 [cs|e]]; simpl in Hw; subst;
    [|done].
  unfold setattr. intros [= <-]. by exists X', w1, cs.
Qed.

(** What a successful [_generate_partition] has bound. *)
Lemma generate_partition_binds (w w' : wd) X y :
  _generate_partition shape1 X y w = (w', Ok tt) →
  ∃ k p,
    attrs w !! "clusterer" = Some (VClusterer k) ∧ k X y = Ok p ∧
    attrs w' !! "partition_" = Some (VPartition p) ∧
    attrs w' !! "model_count_" = Some (VInt (Z.of_nat (length p))) ∧
    attrs w' !! "_label_count" = Some (VInt (Z.of_nat (shape1 y))).
Proof.
  rewrite generate_partition_run.
  destruct (attrs w !! "clusterer") as [v|]; [|done].
  destruct v; try done. destruct (k X y) as [p|e] eqn:Hk; [|done].
  intros [= <-]. exists k, p. cbn [attrs set_attrs].
  split_and!; [done|done| | |].
  - by rewrite !lookup_insert_ne, lookup_insert_eq by done.
  - by rewrite lookup_insert_ne, lookup_insert_eq by done.
  - by rewrite lookup_insert_eq.
Qed.

(** ... and a successful [fit]. *)
Lemma fit_binds (w w' : wd) X y :
  fit ensure_input_format shape1 X y w = (w', Ok tt) →
  ∃ X' k p,
    ensure_input_format X = Ok X' ∧
    attrs w !! "clusterer" = Some (VClusterer k) ∧ k X' y = Ok p ∧
    attrs w' !! "partition_" = Some (VPartition p) ∧
    attrs w' !! "model_count_" = Some (VInt (Z.of_nat (length p))) ∧
    attrs w' !! "_label_count" = Some (VInt (Z.of_nat (shape1 y))).
Proof.
  intros (X' & w1 & cs & HX & Hrun & ->)%fit_run.
  destruct (generate_partition_binds w w1 X' y Hrun)
    as (k & p & Hk & Hp & Hpart & Hcount & Hlabels).
  exists X', k, p. cbn [attrs set_attrs].
  split_and!; try done; by rewrite lookup_insert_ne.
Qed.

(** C7.  When [_generate_partition] succeeds, [model_count_] is bound to
    the number of groups of the partition the clusterer's [fit_predict]
    returned for this call (which is what [partition_] is bound to); and
    so it is after a successful [fit], whose training step writes
    [classifiers_] only. *)
Theorem model_count_after_fit (w w' : wd) :
  (∀ X y,
     _generate_partition shape1 X y w = (w', Ok tt) →
     ∃ k p,
       attrs w !! "clusterer" = Some (VClusterer k) ∧ k X y = Ok p ∧
       attrs w' !! "partition_" = Some (VPartition p) ∧
       attrs w' !! "model_count_" = Some (VInt (Z.of_nat (length p)))) ∧
  (∀ X y,
     fit ensure_input_format shape1 X y w = (w', Ok tt) →
     ∃ X' k p,
       ensure_input_format X = Ok X' ∧
       attrs w !! "clusterer" = Some (VClusterer k) ∧ k X' y = Ok p ∧
       attrs w' !! "partition_" = Some (VPartition p) ∧
       attrs w' !! "model_count_" = Some (VInt (Z.of_nat (length p)))).
Proof.
  split.
  - intros X y (k & p & ? & ? & ? & ? & _)%generate_partition_binds.
    by exists k, p.
  - intros X y (X' & k & p & ? & ? & ? & ? & ? & _)%fit_binds.
    by exists X', k, p.
Qed.

(** C8.  When [_generate_partition] succeeds on the label matrix [y],
    [_label_count] is bound to [y.shape[1]]; and so it is after a
    successful [fit] on [y]. *)
Theorem label_count_after_fit (w w' : wd) y :
  (∀ X,
     _generate_partition shape1 X y w = (w', Ok tt) →
     attrs w' !! "_label_count" = Some (VInt (Z.of_nat (shape1 y)))) ∧
  (∀ X,
     fit ensure_input_format shape1 X y w = (w', Ok tt) →
     attrs w' !! "_label_count" = Some (VInt (Z.of_nat (shape1 y)))).
Proof.
  split.
  - by intros X (k & p & _ & _ & _ & _ & ?)%generate_partition_binds.
  - by intros X (X' & k & p & _ & _ & _ & _ & _ & ?)%fit_binds.
Qed.

(** C9.  With a clusterer under [self.clusterer]: if its [fit_predict]
    raises, [_generate_partition] raises the same exception and the
    instance is as it was; if it returns a partition, [partition_],
    [model_count_] and [_label_count] are bound to the new values, all
    three, and no other attribute changes.  No failure of
    [_generate_partition] changes the instance. *)
Theorem generate_partition_outcomes (w : wd) (k : clusterer) X y :
  attrs w !! "clusterer" = Some (VClusterer k) →
  (∀ e, k X y = Raise e →
     _generate_partition shape1 X y w = (w, Raise e)) ∧
  (∀ p, k X y = Ok p →
     ∃ w', _generate_partition shape1 X y w = (w', Ok tt) ∧
       heap w' = heap w ∧
       attrs w' !! "partition_" = Some (VPartition p) ∧
       attrs w' !! "model_count_" = Some (VInt (Z.of_nat (length p))) ∧
       attrs w' !! "_label_count" = Some (VInt (Z.of_nat (shape1 y))) ∧
       ∀ name, name ≠ "partition_" → name ≠ "model_count_" →
               name ≠ "_label_count" →
               attrs w' !! name = attrs w !! name) ∧
  (∀ e w', _generate_partition shape1 X y w = (w', Raise e) → w' = w).
Proof.
  intros Hk. rewrite generate_partition_run, Hk. split_and!.
  - by intros e ->.
  - intros p ->. eexists. split; [done|]. cbn [attrs set_attrs heap].
    split_and!; [done| | | |].
    + by rewrite !lookup_insert_ne, lookup_insert_eq by done.
    + by rewrite lookup_insert_ne, lookup_insert_eq by done.
    + by rewrite lookup_insert_eq.
    + intros name H1 H2 H3. by rewrite !lookup_insert_ne.
  - intros e w'. destruct (k X y); [done|]. by intros [= <- _].
Qed.

(** *** [predict] without the attributes it reads *)

Lemma predict_unbound (w : wd) X :
  attrs w !! "label_count" = None →
  predict ensure_input_format ensure_output_format shape0 X w =
    (w, match ensure_input_format X with
        | Ok _ => Raise (AttributeError "label_count")
        | Raise e => Raise e
        end).
Proof.
  intros Hnone. unfold predict, mbind at 1, M_bind at 1, lift.
  destruct (ensure_input_format X) as [X'|e]; [|done].
  unfold mbind, M_bind, getattr. by rewrite Hnone.
Qed.

Lemma init_attrs (c k rd : value Csr RawPred Labels) (h : list lil_matrix) :
  attrs (__init__ c k rd (World ∅ h)).1 =
    <["copyable_attrs" :=
        VNames ["clusterer"; "classifier"; "require_dense"]]>
      (<["clusterer" := k]>
         (<["require_dense" := rd]> (<["classifier" := c]> ∅))).
Proof. done. Qed.

(** C5.  [_generate_partition] binds [partition_],
    [model_count_] and [_label_count], not the [label_count] and
    [model_count] that [predict] reads.  So on an instance without
    [label_count], also after [_generate_partition] has run on it, no
    call to [predict] returns a result: a call whose input passes the
    format coercion raises an attribute error for [label_count], and a
    call whose input fails the coercion raises the coercion's error. *)
Theorem predict_after_generate_partition (w : wd) X0 y X :
  attrs w !! "label_count" = None →
  let w' := (_generate_partition shape1 X0 y w).1 in
  attrs w' !! "label_count" = None ∧
  attrs w' !! "model_count" = attrs w !! "model_count" ∧
  ((_generate_partition shape1 X0 y w).2 = Ok tt →
   is_Some (attrs w' !! "model_count_") ∧
   is_Some (attrs w' !! "_label_count")) ∧
  predict ensure_input_format ensure_output_format shape0 X w' =
    (w', match ensure_input_format X with
         | Ok _ => Raise (AttributeError "label_count")
         | Raise e => Raise e
         end).
Proof.
  intros Hnone w'.
  assert (Hnone' : attrs w' !! "label_count" = None).
  { unfold w'. by rewrite generate_partition_unbound. }
  split_and!; [done| | |by apply predict_unbound].
  - unfold w'. by rewrite generate_partition_unbound.
  - unfold w'. destruct (_generate_partition shape1 X0 y w) as [w1 o] eqn:Hgen.
    simpl. intros ->.
    apply generate_partition_binds in Hgen
      as (k & p & _ & _ & _ & Hcount & Hlabels).
    by rewrite Hcount, Hlabels.
Qed.

(** C6.  On a newly constructed instance, on which [fit] was
    never called, no call to [predict] returns a result: a call whose
    input passes the format coercion raises an attribute error (for
    [label_count], the first of the missing attributes that is read),
    and a call whose input fails the coercion raises the coercion's
    error.  The instance is as it was. *)
Theorem predict_unfitted (c k rd : value Csr RawPred Labels)
    (h : list lil_matrix) X :
  let w := (__init__ c k rd (World ∅ h)).1 in
  attrs w !! "partition_" = None ∧ attrs w !! "classifiers_" = None ∧
  attrs w !! "label_count" = None ∧ attrs w !! "model_count" = None ∧
  predict ensure_input_format ensure_output_format shape0 X w =
    (w, match ensure_input_format X with
        | Ok _ => Raise (AttributeError "label_count")
        | Raise e => Raise e
        end).
Proof.
  intros w.
  assert (Hfresh : ∀ name : string,
            name ≠ "copyable_attrs" → name ≠ "clusterer" →
            name ≠ "require_dense" → name ≠ "classifier" →
            attrs w !! name = None).
  { intros name H1 H2 H3 H4. unfold w. rewrite init_attrs.
    by rewrite !lookup_insert_ne, lookup_empty. }
  split_and!; try by apply Hfresh.
  apply predict_unbound. by apply Hfresh.
Qed.

(** After a successful [fit] of a new instance, a call to [predict]
    whose input passes the format coercion does not return a matrix: it
    raises an attribute error for [label_count], the label count of the
    training call being bound to [_label_count]. *)
Lemma fit_then_predict (c k rd : value Csr RawPred Labels)
    (h : list lil_matrix) X0 y (w' : wd) X X' :
  fit ensure_input_format shape1 X0 y (__init__ c k rd (World ∅ h)).1
    = (w', Ok tt) →
  ensure_input_format X = Ok X' →
  attrs w' !! "_label_count" = Some (VInt (Z.of_nat (shape1 y))) ∧
  predict ensure_input_format ensure_output_format shape0 X w' =
    (w', Raise (AttributeError "label_count")).
Proof.
  intros Hfit HX. split.
  - by apply fit_binds in Hfit as (? & ? & ? & _ & _ & _ & _ & _ & ?).
  - rewrite predict_unbound, HX; [done|].
    apply fit_run in Hfit as (X1 & w1 & cs & _ & Hgen & ->).
    cbn [attrs set_attrs]. rewrite lookup_insert_ne by done.
    replace w1 with (_generate_partition shape1 X1 y
                       (__init__ c k rd (World ∅ h)).1).1
      by (by rewrite Hgen).
    rewrite generate_partition_unbound by done.
    rewrite init_attrs. by rewrite !lookup_insert_ne, lookup_empty.
Qed.

End Facts.

(** ** The concrete setting *)

Section ScenarioFacts.
Import Scenario.

Lemma ready_trained : trained ready 3 partition_ classifiers_.
Proof.
  split; try reflexivity; [lia|].
  repeat constructor; lia.
Qed.

Lemma overlapping_trained :
  trained ready_overlapping 3 overlapping classifiers_.
Proof.
  split; try reflexivity; [lia|].
  repeat constructor; lia.
Qed.

Lemma ready_answers :
  answers ensure_output_format shape0 1 partition_ classifiers_ preds.
Proof.
  split; repeat constructor; by eexists.
Qed.

Lemma overlapping_answers :
  answers ensure_output_format shape0 1 overlapping classifiers_ preds.
Proof.
  split; repeat constructor; by eexists.
Qed.

Lemma partition_true : true_partition 3 partition_.
Proof.
  split.
  - by apply (bool_decide_unpack _).
  - intros g. simpl. rewrite !elem_of_cons, elem_of_nil. lia.
Qed.

Lemma label_2_uncovered : ¬ covered overlapping 2.
Proof.
  intros (group & Hin & Hg). unfold overlapping in Hin.
  rewrite !elem_of_cons, elem_of_nil in Hin.
  destruct Hin as [->|[->|[]]];
    rewrite !elem_of_cons, elem_of_nil in Hg; lia.
Qed.


(** The round trip of the spec: groups [[0,2],[1]], all-ones
    predictions, one row: the result row is [1,1,1]. *)
Lemma predict_true_partition_witness :
  trained ready 3 partition_ classifiers_ ∧
  answers ensure_output_format shape0 1 partition_ classifiers_ preds ∧
  true_partition 3 partition_ ∧
  ∃ res,
    Scenario.predict (Some 1) ready = (set_heap [res] ready, Ok 0) ∧
    lil_get res 0 0 = 1%Z ∧ lil_get res 0 1 = 1%Z ∧ lil_get res 0 2 = 1%Z.
Proof.
  split_and!;
    [apply ready_trained | apply ready_answers | apply partition_true |].
  destruct (predict_true_partition ensure_input_format ensure_output_format
              shape0 ready (Some 1) 1 3 partition_ classifiers_ preds
              eq_refl ready_trained ready_answers partition_true)
    as (res & Hrun & Hcells & _).
  exists res. split; [exact Hrun|]. split_and!.
  - exact (proj1 (Hcells 0 [0; 2]%Z [[1; 1]]%Z 0 0%Z 0
                    eq_refl eq_refl eq_refl)).
  - exact (proj1 (Hcells 1 [1]%Z [[1]]%Z 0 1%Z 0 eq_refl eq_refl eq_refl)).
  - exact (proj1 (Hcells 0 [0; 2]%Z [[1; 1]]%Z 1 2%Z 0
                    eq_refl eq_refl eq_refl)).
Defined.

(** Groups [[0,1],[1]] both assert label 1: the merged entry is 1. *)
Lemma predict_binary_or_witness :
  trained ready_overlapping 3 overlapping classifiers_ ∧
  answers ensure_output_format shape0 1 overlapping classifiers_ preds ∧
  ∃ res,
    Scenario.predict (Some 1) ready_overlapping
      = (set_heap [res] ready_overlapping, Ok 0) ∧
    (∀ i j, lil_get res i j = 0%Z ∨ lil_get res i j = 1%Z) ∧
    lil_get res 0 1 = 1%Z.
Proof.
  split_and!; [apply overlapping_trained | apply overlapping_answers |].
  destruct (predict_binary_or ensure_input_format ensure_output_format
              shape0 ready_overlapping (Some 1)) as [Hbin Hor].
  destruct (Hor 1 3%Z overlapping classifiers_ preds eq_refl
              overlapping_trained overlapping_answers)
    as (res & Hrun & Hone).
  exists res. split; [exact Hrun|]. split.
  - destruct (Hbin _ _ Hrun) as (res' & Hres' & Hcells).
    injection Hres' as <-. exact Hcells.
  - exact (Hone 0 1 [0; 1]%Z [1]%Z [[1; 1]]%Z [[1]]%Z 1 0 0 1%Z
             (O_S 0) eq_refl eq_refl eq_refl eq_refl eq_refl eq_refl
             eq_refl eq_refl).
Defined.

(** Groups [[0,1],[1]] leave label 2 out: its column is 0, no error. *)
Lemma predict_uncovered_zero_witness :
  trained ready_overlapping 3 overlapping classifiers_ ∧
  answers ensure_output_format shape0 1 overlapping classifiers_ preds ∧
  ¬ covered overlapping 2 ∧
  ∃ res,
    Scenario.predict (Some 1) ready_overlapping
      = (set_heap [res] ready_overlapping, Ok 0) ∧
    ∀ i, lil_get res i 2 = 0%Z.
Proof.
  split_and!; [apply overlapping_trained | apply overlapping_answers
              | apply label_2_uncovered |].
  destruct (predict_uncovered_zero ensure_input_format ensure_output_format
              shape0 ready_overlapping (Some 1) 1 3 overlapping
              classifiers_ preds eq_refl overlapping_trained
              overlapping_answers)
    as (res & Hrun & Hzero).
  exists res. split; [exact Hrun|]. exact (Hzero 2%Z label_2_uncovered).
Defined.

(** The two scenarios of the spec. *)
Example round_trip :
  result_row (Scenario.predict (Some 1) ready) 0 3 = Some [1; 1; 1]%Z.
Proof. by vm_compute. Qed.

Example singleton_groups :
  result_row (Scenario.predict (Some 1) ready_singletons) 0 3
    = Some [0; 1; 0]%Z.
Proof. by vm_compute. Qed.

(** C4.  A new instance is fitted on one sample with three labels, and
    the label count 3 is bound to [_label_count]; [predict] on one sample
    then raises an attribute error for [label_count] where a matrix of
    shape (1, 3) is due.  It does so already after [_generate_partition]
    alone. *)
Theorem predict_after_fit_raises :
  Scenario.fit (Some 1) (1, 3) fresh = (fitted, Ok tt) ∧
  attrs fitted !! "_label_count" = Some (VInt 3) ∧
  attrs fitted !! "model_count_" = Some (VInt 2) ∧
  attrs fitted !! "label_count" = None ∧
  attrs fitted !! "model_count" = None ∧
  Scenario.predict (Some 1) fitted
    = (fitted, Raise (AttributeError "label_count")) ∧
  Scenario.predict (Some 1) generated
    = (generated, Raise (AttributeError "label_count")).
Proof. split_and!; by vm_compute. Qed.

(** With an input that cannot be coerced, the error of [predict] on an
    instance that only went through [_generate_partition] is the
    coercion's, not an attribute error. *)
Lemma predict_after_generate_partition_counterexample :
  Scenario.generate_partition 1 (1, 3) fresh = (generated, Ok tt) ∧
  Scenario.predict None generated = (generated, Raise (Raised "format")) ∧
  ¬ ∃ a, (Scenario.predict None generated).2 = Raise (AttributeError a).
Proof. split_and!; [by vm_compute|by vm_compute|]. by intros [a Ha]. Qed.

Lemma predict_after_generate_partition_witness :
  attrs fresh !! "label_count" = None ∧
  attrs generated !! "model_count_" = Some (VInt 2) ∧
  attrs generated !! "_label_count" = Some (VInt 3) ∧
  Scenario.predict (Some 1) generated
    = (generated, Raise (AttributeError "label_count")) ∧
  Scenario.predict None generated = (generated, Raise (Raised "format")).
Proof.
  split; [reflexivity|]. split; [reflexivity|]. split; [reflexivity|].
  split.
  - exact (proj2 (proj2 (proj2 (predict_after_generate_partition
                           ensure_input_format ensure_output_format shape0
                           shape1 fresh 1 (1, 3) (Some 1) eq_refl)))).
  - exact (proj2 (proj2 (proj2 (predict_after_generate_partition
                           ensure_input_format ensure_output_format shape0
                           shape1 fresh 1 (1, 3) None eq_refl)))).
Defined.

(** With an input that cannot be coerced, the error of [predict] on a
    new instance is the coercion's, not an attribute error. *)
Lemma predict_unfitted_counterexample :
  Scenario.predict None fresh = (fresh, Raise (Raised "format")) ∧
  ¬ ∃ a, (Scenario.predict None fresh).2 = Raise (AttributeError a).
Proof. split; [by vm_compute|]. by intros [a Ha]. Qed.

Lemma predict_unfitted_witness :
  Scenario.predict (Some 1) fresh
    = (fresh, Raise (AttributeError "label_count")) ∧
  Scenario.predict None fresh = (fresh, Raise (Raised "format")).
Proof.
  split.
  - exact (proj2 (proj2 (proj2 (proj2
             (predict_unfitted ensure_input_format ensure_output_format
                shape0 (VEstimator base) (VClusterer fixed_clusterer)
                (VFlags (true, true)) [] (Some 1)))))).
  - exact (proj2 (proj2 (proj2 (proj2
             (predict_unfitted ensure_input_format ensure_output_format
                shape0 (VEstimator base) (VClusterer fixed_clusterer)
                (VFlags (true, true)) [] None))))).
Defined.

Lemma generated_run :
  Scenario.generate_partition 1 (1, 3) fresh = (generated, Ok tt).
Proof. by vm_compute. Qed.

Lemma fitted_run : Scenario.fit (Some 1) (1, 3) fresh = (fitted, Ok tt).
Proof. by vm_compute. Qed.

Lemma model_count_after_fit_witness :
  Scenario.generate_partition 1 (1, 3) fresh = (generated, Ok tt) ∧
  Scenario.fit (Some 1) (1, 3) fresh = (fitted, Ok tt) ∧
  (∃ k p, attrs fresh !! "clusterer" = Some (VClusterer k) ∧
          k 1 (1, 3) = Ok p ∧
          attrs generated !! "partition_" = Some (VPartition p) ∧
          attrs generated !! "model_count_"
            = Some (VInt (Z.of_nat (length p)))) ∧
  (∃ X' k p, Scenario.ensure_input_format (Some 1) = Ok X' ∧
             attrs fresh !! "clusterer" = Some (VClusterer k) ∧
             k X' (1, 3) = Ok p ∧
             attrs fitted !! "partition_" = Some (VPartition p) ∧
             attrs fitted !! "model_count_"
               = Some (VInt (Z.of_nat (length p)))).
Proof.
  split; [exact generated_run|]. split; [exact fitted_run|]. split.
  - exact (proj1 (model_count_after_fit ensure_input_format shape1
                    fresh generated) 1 (1, 3) generated_run).
  - exact (proj2 (model_count_after_fit ensure_input_format shape1
                    fresh fitted) (Some 1) (1, 3) fitted_run).
Defined.

Lemma label_count_after_fit_witness :
  Scenario.generate_partition 1 (1, 3) fresh = (generated, Ok tt) ∧
  Scenario.fit (Some 1) (1, 3) fresh = (fitted, Ok tt) ∧
  attrs generated !! "_label_count" = Some (VInt 3) ∧
  attrs fitted !! "_label_count" = Some (VInt 3).
Proof.
  split; [exact generated_run|]. split; [exact fitted_run|]. split.
  - exact (proj1 (label_count_after_fit ensure_input_format shape1
                    fresh generated (1, 3)) 1 generated_run).
  - exact (proj2 (label_count_after_fit ensure_input_format shape1
                    fresh fitted (1, 3)) (Some 1) fitted_run).
Defined.

(** A new instance whose clusterer always fails. *)
Lemma generate_partition_outcomes_witness :
  attrs fresh !! "clusterer" = Some (VClusterer fixed_clusterer) ∧
  (∃ w', Scenario.generate_partition 1 (1, 3) fresh = (w', Ok tt) ∧
         heap w' = heap fresh ∧
         attrs w' !! "partition_" = Some (VPartition [[0; 2]; [1]]%Z) ∧
         attrs w' !! "model_count_" = Some (VInt 2) ∧
         attrs w' !! "_label_count" = Some (VInt 3) ∧
         ∀ name, name ≠ "partition_" → name ≠ "model_count_" →
                 name ≠ "_label_count" →
                 attrs w' !! name = attrs fresh !! name) ∧
  (let w := set_attrs (<["clusterer" := VClusterer failing_clusterer]>
                         (attrs generated)) generated in
   Scenario.generate_partition 1 (1, 3) w
     = (w, Raise (Raised "fit-failure"))).
Proof.
  split; [reflexivity|]. split.
  - exact (proj1 (proj2 (generate_partition_outcomes shape1 fresh
                           fixed_clusterer 1 (1, 3) eq_refl))
             [[0; 2]; [1]]%Z eq_refl).
  - exact (proj1 (generate_partition_outcomes shape1
                    (set_attrs
                       (<["clusterer" := VClusterer failing_clusterer]>
                          (attrs generated)) generated)
                    failing_clusterer 1 (1, 3) eq_refl)
             (Raised "fit-failure") eq_refl).
Defined.

Lemma predict_frame_witness :
  attrs (Scenario.predict (Some 1) ready).1 = attrs ready ∧
  ∀ l w', Scenario.predict (Some 1) ready = (w', Ok l) →
          heap ready !! l = None ∧ is_Some (heap w' !! l).
Proof.
  destruct (predict_frame ensure_input_format ensure_output_format shape0
              ready (Some 1)) as (Hattrs & _ & Hnew).
  split; [exact Hattrs|].
  intros l w' Hrun. destruct (Hnew l w' Hrun) as (H1 & H2 & _).
  by split.
Defined.

End ScenarioFacts.

(** * More facts *)

Section MoreFacts.

Context {RawX Csr RawPred Labels : Type}.
Variable ensure_input_format : RawX → outcome Csr.
Variable ensure_output_format : RawPred → outcome (list (list Z)).
Variable shape0 : Csr → nat.
Variable shape1 : Labels → nat.

#[local] Abbreviation wd := (world Csr RawPred Labels).

(** ** The merge, for any partition *)

(** X1.  On an instance on which the attributes [predict] reads are bound
    and whose classifiers answer, whatever the partition (overlapping,
    incomplete), [predict] returns a matrix of shape (number of samples,
    label count) in which the entry at row [r] and label [L] is 1 exactly
    when some group holds [L] at a local position where its classifier
    predicts a non-zero value for row [r], and 0 otherwise. *)
Theorem predict_union (w : wd) X X' N p cs preds :
  ensure_input_format X = Ok X' →
  trained w N p cs →
  answers ensure_output_format shape0 X' p cs preds →
  ∃ res,
    predict ensure_input_format ensure_output_format shape0 X w =
      (set_heap (heap w ++ [res]) w, Ok (length (heap w))) ∧
    lil_shape res = (Z.of_nat (shape0 X'), N) ∧
    ∀ (r : nat) (L : Z),
      (lil_get res (Z.of_nat r) L = 1%Z ↔
       ∃ (m : nat) group sp (c : nat),
         p !! m = Some group ∧ preds !! m = Some sp ∧
         group !! c = Some L ∧ pred_get sp r c ≠ 0%Z) ∧
      (lil_get res (Z.of_nat r) L = 0%Z ∨ lil_get res (Z.of_nat r) L = 1%Z).
Proof.
  intros HX Htr Hans.
  destruct (predict_trained _ _ _ w X X' N p cs preds HX Htr Hans)
    as (res & Hrun & Hshape & Hcells).
  exists res. split; [done|]. split; [done|].
  intros r L. destruct (Hcells (Z.of_nat r) L) as [[Has ->]|[Hnot ->]].
  - split; [|by right]. split; [|done]. intros _.
    destruct Has as (m & group & sp & r' & c & ? & ? & ? & Hr & ?).
    apply Nat2Z.inj in Hr as <-. by exists m, group, sp, c.
  - split; [|by left]. split; [done|].
    intros (m & group & sp & c & ? & ? & ? & ?).
    exfalso. apply Hnot. by exists m, group, sp, r, c.
Qed.

(** ** More groups, other orders *)

Lemma asserted_transfer X' p1 cs1 preds1 p2 cs2 preds2 (i j : Z) :
  answers ensure_output_format shape0 X' p1 cs1 preds1 →
  answers ensure_output_format shape0 X' p2 cs2 preds2 →
  zip p1 cs1 ⊆ zip p2 cs2 →
  asserted p1 preds1 i j → asserted p2 preds2 i j.
Proof.
  intros [Hans1 _] [Hans2 _] Hsub
    (m & group & sp & r & c & Hgroup & Hsp & Hc & -> & Hnz).
  destruct (Forall2_lookup_r _ _ _ _ _ Hans1 Hsp)
    as (clf & Hclf & raw & Hraw & Hout).
  assert (Hin : (group, clf) ∈ zip p2 cs2).
  { apply Hsub. apply list_elem_of_lookup. exists m.
    apply lookup_zip_with_Some. by exists group, clf. }
  apply list_elem_of_lookup in Hin as [m' Hm'].
  apply lookup_zip_with_Some in Hm' as (group' & clf' & [= <- <-] & Hg' & Hc').
  destruct (Forall2_lookup_l _ _ _ _ _ Hans2 Hc')
    as (sp' & Hsp' & raw' & Hraw' & Hout').
  assert (sp' = sp) as -> by congruence.
  by exists m', group, sp, r, c.
Qed.

(** X2.  Adding groups never removes a label.  When every group of one
    instance occurs, with its classifier, among the groups of a second
    instance with the same label count, every entry of what [predict]
    returns on the first is at most the entry of what it returns on the
    second. *)
Theorem predict_monotone (w1 w2 : wd) X X' N p1 cs1 preds1 p2 cs2 preds2 :
  ensure_input_format X = Ok X' →
  trained w1 N p1 cs1 →
  answers ensure_output_format shape0 X' p1 cs1 preds1 →
  trained w2 N p2 cs2 →
  answers ensure_output_format shape0 X' p2 cs2 preds2 →
  zip p1 cs1 ⊆ zip p2 cs2 →
  ∃ res1 res2,
    predict ensure_input_format ensure_output_format shape0 X w1 =
      (set_heap (heap w1 ++ [res1]) w1, Ok (length (heap w1))) ∧
    predict ensure_input_format ensure_output_format shape0 X w2 =
      (set_heap (heap w2 ++ [res2]) w2, Ok (length (heap w2))) ∧
    ∀ i j, (lil_get res1 i j ≤ lil_get res2 i j)%Z.
Proof.
  intros HX Htr1 Hans1 Htr2 Hans2 Hsub.
  destruct (predict_trained _ _ _ w1 X X' N p1 cs1 preds1 HX Htr1 Hans1)
    as (res1 & Hrun1 & _ & Hcells1).
  destruct (predict_trained _ _ _ w2 X X' N p2 cs2 preds2 HX Htr2 Hans2)
    as (res2 & Hrun2 & _ & Hcells2).
  exists res1, res2. split; [done|]. split; [done|].
  intros i j.
  destruct (Hcells1 i j) as [[Has1 ->]|[_ ->]],
    (Hcells2 i j) as [[_ ->]|[Hnot2 ->]]; try lia.
  exfalso. apply Hnot2.
  exact (asserted_transfer X' p1 cs1 preds1 p2 cs2 preds2 i j
           Hans1 Hans2 Hsub Has1).
Qed.

(** X3.  The order of the groups does not matter.  When the groups of two
    instances with the same label count are the same up to their order,
    each with its classifier, [predict] returns on both a matrix with the
    same entries. *)
Theorem predict_order_irrelevant (w1 w2 : wd) X X' N
    p1 cs1 preds1 p2 cs2 preds2 :
  ensure_input_format X = Ok X' →
  trained w1 N p1 cs1 →
  answers ensure_output_format shape0 X' p1 cs1 preds1 →
  trained w2 N p2 cs2 →
  answers ensure_output_format shape0 X' p2 cs2 preds2 →
  zip p1 cs1 ≡ₚ zip p2 cs2 →
  ∃ res1 res2,
    predict ensure_input_format ensure_output_format shape0 X w1 =
      (set_heap (heap w1 ++ [res1]) w1, Ok (length (heap w1))) ∧
    predict ensure_input_format ensure_output_format shape0 X w2 =
      (set_heap (heap w2 ++ [res2]) w2, Ok (length (heap w2))) ∧
    lil_shape res1 = lil_shape res2 ∧
    ∀ i j, lil_get res1 i j = lil_get res2 i j.
Proof.
  intros HX Htr1 Hans1 Htr2 Hans2 Hperm.
  destruct (predict_trained _ _ _ w1 X X' N p1 cs1 preds1 HX Htr1 Hans1)
    as (res1 & Hrun1 & Hs1 & Hcells1).
  destruct (predict_trained _ _ _ w2 X X' N p2 cs2 preds2 HX Htr2 Hans2)
    as (res2 & Hrun2 & Hs2 & Hcells2).
  exists res1, res2. split; [done|]. split; [done|].
  split; [congruence|].
  assert (H12 : zip p1 cs1 ⊆ zip p2 cs2) by (intros x; by rewrite Hperm).
  assert (H21 : zip p2 cs2 ⊆ zip p1 cs1) by (intros x; by rewrite Hperm).
  intros i j.
  destruct (Hcells1 i j) as [[Has1 ->]|[Hnot1 ->]],
    (Hcells2 i j) as [[Has2 ->]|[Hnot2 ->]]; try done.
  - exfalso. apply Hnot2.
    exact (asserted_transfer X' p1 cs1 preds1 p2 cs2 preds2 i j
             Hans1 Hans2 H12 Has1).
  - exfalso. apply Hnot1.
    exact (asserted_transfer X' p2 cs2 preds2 p1 cs1 preds1 i j
             Hans2 Hans1 H21 Has2).
Qed.

(** ** Edges of [predict] *)

(** [predict], stage by stage: the coercion, the read of the label count,
    the allocation, then the two loops on the world with the new matrix;
    what is returned is the position of that matrix. *)
Lemma predict_unfold (w : wd) X :
  predict ensure_input_format ensure_output_format shape0 X w =
    match ensure_input_format X with
    | Raise e => (w, Raise e)
    | Ok X' =>
        match attrs w !! "label_count" with
        | None => (w, Raise (AttributeError "label_count"))
        | Some (VInt N) =>
            if (N <? 0)%Z then (w, Raise ValueError)
            else
              match merge_loops ensure_output_format X' (length (heap w))
                      (set_heap
                         (heap w ++ [LilMatrix (Z.of_nat (shape0 X'), N) ∅])
                         w) with
              | (w', Ok _) => (w', Ok (length (heap w)))
              | (w', Raise e) => (w', Raise e)
              end
        | Some _ => (w, Raise TypeError)
        end
    end.
Proof.
  unfold predict, mbind at 1, M_bind at 1, lift.
  destruct (ensure_input_format X) as [X'|e]; [|done].
  unfold mbind at 1, M_bind at 1, getattr at 1.
  destruct (attrs w !! "label_count") as [v|]; [|done].
  unfold mbind at 1, M_bind at 1, lil_matrix_new.
  destruct v; try done.
  unfold mbind at 1, M_bind at 1, lift, new_lil, alloc.
  destruct (Z.ltb_spec (Z.of_nat (shape0 X')) 0); [lia|].
  destruct (Z.ltb_spec n 0); [done|]. cbn [orb].
  unfold merge_loops, mbind at 1 4, M_bind at 1 4.
  destruct (getattr "model_count" _) as [w1 [v|e]]; [|done].
  unfold mbind at 1 3, M_bind at 1 3.
  destruct (range v w1) as [w2 [models|e]]; [|done].
  unfold mbind, M_bind.
  by destruct (for_ models _ w2) as [w3 [[]|e]].
Qed.

Lemma predict_from_allocation (w : wd) X X' (N : Z) :
  ensure_input_format X = Ok X' →
  attrs w !! "label_count" = Some (VInt N) → (0 ≤ N)%Z →
  predict ensure_input_format ensure_output_format shape0 X w =
    match merge_loops ensure_output_format X' (length (heap w))
            (set_heap (heap w ++ [LilMatrix (Z.of_nat (shape0 X'), N) ∅]) w)
    with
    | (w', Ok _) => (w', Ok (length (heap w)))
    | (w', Raise e) => (w', Raise e)
    end.
Proof.
  intros HX Hlc HN. rewrite predict_unfold, HX, Hlc.
  by destruct (Z.ltb_spec N 0); [lia|].
Qed.

(** X4.  With the label count bound and a model count that is zero or
    negative, [predict] returns an all-zero matrix of shape (number of
    samples, label count); [classifiers_] and [partition_] are not read
    and need not be bound. *)
Theorem predict_no_models (w : wd) X X' (N n : Z) :
  ensure_input_format X = Ok X' →
  attrs w !! "label_count" = Some (VInt N) → (0 ≤ N)%Z →
  attrs w !! "model_count" = Some (VInt n) → (n ≤ 0)%Z →
  predict ensure_input_format ensure_output_format shape0 X w =
    (set_heap (heap w ++ [LilMatrix (Z.of_nat (shape0 X'), N) ∅]) w,
     Ok (length (heap w))).
Proof.
  intros HX Hlc HN Hmc Hn.
  rewrite (predict_from_allocation w X X' N) by done.
  unfold merge_loops, mbind, M_bind, getattr. cbn [attrs set_heap].
  rewrite Hmc. unfold range. by replace (Z.to_nat n) with 0 by lia.
Qed.

(** X5.  The attributes are read in a fixed order, and the first one
    that is missing is the one the attribute error names.  With the label
    count bound: a missing [model_count] is reported; with a positive
    model count, a missing [classifiers_] is reported; and with the first
    classifier predicting some label, a missing [partition_] is reported.
    The attributes of the instance are as before in each case. *)
Theorem predict_missing_attribute (w : wd) X X' (N : Z) :
  ensure_input_format X = Ok X' →
  attrs w !! "label_count" = Some (VInt N) → (0 ≤ N)%Z →
  let w1 := set_heap (heap w ++ [LilMatrix (Z.of_nat (shape0 X'), N) ∅]) w in
  (attrs w !! "model_count" = None →
   predict ensure_input_format ensure_output_format shape0 X w =
     (w1, Raise (AttributeError "model_count"))) ∧
  (∀ n : Z,
     attrs w !! "model_count" = Some (VInt n) → (0 < n)%Z →
     attrs w !! "classifiers_" = None →
     predict ensure_input_format ensure_output_format shape0 X w =
       (w1, Raise (AttributeError "classifiers_"))) ∧
  (∀ (n : Z) cs (c : classifier) raw sp,
     attrs w !! "model_count" = Some (VInt n) → (0 < n)%Z →
     attrs w !! "classifiers_" = Some (VClassifiers cs) →
     cs !! 0 = Some c → c X' = Ok raw →
     ensure_output_format raw = Ok sp → nonzero sp ≠ [] →
     attrs w !! "partition_" = None →
     predict ensure_input_format ensure_output_format shape0 X w =
       (w1, Raise (AttributeError "partition_"))).
Proof.
  intros HX Hlc HN w1. subst w1.
  rewrite (predict_from_allocation w X X' N) by done.
  split_and!.
  - intros Hmc. unfold merge_loops, mbind, M_bind, getattr.
    cbn [attrs set_heap]. by rewrite Hmc.
  - intros n Hmc Hn Hcs.
    unfold merge_loops, mbind at 1, M_bind at 1, getattr at 1.
    cbn [attrs set_heap].
    rewrite Hmc. unfold range, mbind at 1, M_bind at 1, mret at 1, M_ret at 1.
    destruct (Z.to_nat n) as [|k] eqn:Hk; [lia|].
    cbn [seq for_]. unfold model_pass, mbind, M_bind, getattr.
    cbn [attrs set_heap]. by rewrite Hcs.
  - intros n cs c raw sp Hmc Hn Hcs Hc Hraw Hout Hnz Hp.
    unfold merge_loops, mbind at 1, M_bind at 1, getattr at 1.
    cbn [attrs set_heap].
    rewrite Hmc. unfold range, mbind at 1, M_bind at 1, mret at 1, M_ret at 1.
    destruct (Z.to_nat n) as [|k] eqn:Hk; [lia|].
    cbn [seq for_]. unfold model_pass, mbind, M_bind, getattr, lift.
    cbn [attrs set_heap]. rewrite Hcs. unfold classifier_at. rewrite Hc.
    unfold mret, M_ret. rewrite Hraw, Hout.
    destruct (nonzero sp) as [|rc coords]; [done|].
    cbn [for_]. unfold scatter, mbind, M_bind, getattr.
    cbn [attrs set_heap]. by rewrite Hp.
Qed.

(** ** What is true of every matrix [predict] returns *)

Lemma lil_insert_within (m m' : lil_matrix) (i j : Z) :
  lil_insert m i j 1 = Ok m' → within m →
  lil_shape m' = lil_shape m ∧ within m'.
Proof.
  unfold lil_insert, within. destruct (lil_shape m) as [M N] eqn:Hs.
  destruct (Z.ltb_spec i (- M)); [done|]. destruct (Z.leb_spec M i); [done|].
  destruct (Z.ltb_spec j (- N)); [done|]. destruct (Z.leb_spec N j); [done|].
  simpl. intros [= <-] Hin. split; [done|]. simpl.
  intros i' j' v. rewrite lookup_insert. case_decide as Heq.
  - intros _. injection Heq as <- <-.
    destruct (Z.ltb_spec i 0), (Z.ltb_spec j 0); lia.
  - apply Hin.
Qed.

(** The two loops keep what item assignment into the result keeps. *)
Lemma merge_loops_preserves (P : wd → Prop) X' l :
  (∀ row col, preserves P (setitem l row col 1)) →
  preserves P (merge_loops ensure_output_format X' l).
Proof.
  intros Hset. unfold merge_loops.
  apply preserves_bind; [apply preserves_getattr|]. intros v.
  apply preserves_bind.
  { intros w HP. unfold range. by destruct v. }
  intros models. apply preserves_for. intros m.
  by apply model_pass_preserves.
Qed.

(** X6.  Whenever [predict] returns, on whatever instance, the input was
    coerced, the label count is bound to a non-negative integer, and the
    result has shape (number of samples, label count) with every stored
    entry inside that shape. *)
Theorem predict_well_formed (w w' : wd) X l :
  predict ensure_input_format ensure_output_format shape0 X w = (w', Ok l) →
  ∃ X' (N : Z) res,
    ensure_input_format X = Ok X' ∧
    attrs w !! "label_count" = Some (VInt N) ∧ (0 ≤ N)%Z ∧
    heap w' !! l = Some res ∧
    lil_shape res = (Z.of_nat (shape0 X'), N) ∧ within res.
Proof.
  rewrite predict_unfold.
  destruct (ensure_input_format X) as [X'|e] eqn:HX; [|done].
  destruct (attrs w !! "label_count") as [v|] eqn:Hlc; [|done].
  destruct v as [|N| | | | | | |]; try done.
  destruct (Z.ltb_spec N 0) as [|HN]; [done|].
  set (m0 := LilMatrix (Z.of_nat (shape0 X'), N) ∅).
  set (P := λ w1 : wd, ∃ m, heap w1 !! length (heap w) = Some m ∧
                            lil_shape m = (Z.of_nat (shape0 X'), N) ∧
                            within m).
  assert (Hinv : P (merge_loops ensure_output_format X' (length (heap w))
                      (set_heap (heap w ++ [m0]) w)).1).
  { apply merge_loops_preserves.
    - intros row col w1 (m & Hm & Hs & Hin). unfold setitem. rewrite Hm.
      destruct (lil_insert m row col 1) as [m'|e] eqn:Hins; [|by exists m].
      destruct (lil_insert_within m m' row col Hins Hin) as [Hs' Hin'].
      exists m'. cbn [fst heap set_heap]. split_and!; [|congruence|done].
      apply list_lookup_insert_eq. by eapply lookup_lt_Some.
    - exists m0. split_and!; [|done|done].
      simpl. by rewrite lookup_app_r, Nat.sub_diag. }
  destruct (merge_loops _ _ _ _) as [w2 [[]|e]]; [|done].
  intros [= <- <-]. destruct Hinv as (res & Hres & Hs & Hin).
  by exists X', N, res.
Qed.

(** ** Calling [predict] again *)

#[local] Abbreviation twin l1 l2 :=
  (same_at (Csr := Csr) (RawPred := RawPred) (Labels := Labels) l1 l2).

Lemma agree_bind {A B} (R : wd → wd → Prop) (m1 m2 : M A) (k1 k2 : A → M B) :
  agree R m1 m2 → (∀ a, agree R (k1 a) (k2 a)) →
  agree R (m1 ≫= k1) (m2 ≫= k2).
Proof.
  intros Hm Hk w1 w2 HR. unfold mbind, M_bind.
  destruct (Hm w1 w2 HR) as [Ho HR'].
  destruct (m1 w1) as [w1' [a1|e1]], (m2 w2) as [w2' [a2|e2]];
    simpl in *; simplify_eq; [by apply Hk|done].
Qed.

Lemma agree_for {A} (R : wd → wd → Prop) (body1 body2 : A → M unit) l :
  (∀ x, agree R (body1 x) (body2 x)) → agree R (for_ l body1) (for_ l body2).
Proof.
  intros Hbody. induction l as [|x l IH]; [by intros w1 w2 HR|].
  cbn [for_]. apply agree_bind; [apply Hbody|]. intros _. apply IH.
Qed.

Lemma agree_getattr l1 l2 name :
  name ∈ predict_reads →
  agree (twin l1 l2) (getattr name) (getattr name).
Proof.
  intros Hname w1 w2 HR. pose proof HR as [Ha Hh]. unfold getattr.
  rewrite (Ha name Hname). by destruct (attrs w2 !! name).
Qed.

Lemma agree_pure {A} (R : wd → wd → Prop) (o : outcome A) :
  agree R (lift o) (lift o).
Proof. by intros w1 w2 HR. Qed.

Lemma agree_setitem l1 l2 (row col x : Z) :
  agree (twin l1 l2) (setitem l1 row col x) (setitem l2 row col x).
Proof.
  intros w1 w2 HR. pose proof HR as [Ha Hh]. unfold setitem.
  destruct (heap w1 !! l1) as [m|] eqn:Hm1; rewrite <- Hh; [|done].
  destruct (lil_insert m row col x) as [m'|e]; [|done].
  split; [done|]. split; [done|]. cbn [fst heap set_heap].
  rewrite !list_lookup_insert_eq; [done| |]; by eapply lookup_lt_Some.
Qed.

Lemma agree_scatter l1 l2 model rc :
  agree (twin l1 l2) (scatter l1 model rc) (scatter l2 model rc).
Proof.
  unfold scatter. apply agree_bind; [apply agree_getattr; repeat constructor|].
  intros v. apply agree_bind.
  - unfold label_at. destruct v; try by intros w1 w2 HR.
    destruct (p !! model) as [group|]; [|by intros w1 w2 HR].
    destruct (group !! rc.2); by intros w1 w2 HR.
  - intros g. apply agree_setitem.
Qed.

Lemma agree_model_pass X' l1 l2 model :
  agree (twin l1 l2) (model_pass ensure_output_format X' l1 model)
    (model_pass ensure_output_format X' l2 model).
Proof.
  unfold model_pass. apply agree_bind; [apply agree_getattr; repeat constructor|].
  intros v. apply agree_bind.
  { unfold classifier_at. destruct v; try by intros w1 w2 HR.
    destruct (cs !! model); by intros w1 w2 HR. }
  intros clf. apply agree_bind; [apply agree_pure|].
  intros raw. apply agree_bind; [apply agree_pure|].
  intros sp. apply agree_for. intros rc. apply agree_scatter.
Qed.

Lemma agree_merge_loops X' l1 l2 :
  agree (twin l1 l2) (merge_loops ensure_output_format X' l1)
    (merge_loops ensure_output_format X' l2).
Proof.
  unfold merge_loops. apply agree_bind; [apply agree_getattr; repeat constructor|].
  intros v. apply agree_bind.
  { unfold range. destruct v; by intros w1 w2 HR. }
  intros models. apply agree_for. intros m. apply agree_model_pass.
Qed.

(** The outcome of [predict] and the matrix it returns depend on the
    attributes it reads and on the input, not on the other attributes nor
    on what was allocated before. *)
Lemma predict_agree (w1 w2 : wd) X :
  same_reads w1 w2 →
  match predict ensure_input_format ensure_output_format shape0 X w1,
        predict ensure_input_format ensure_output_format shape0 X w2 with
  | (w1', Ok l1), (w2', Ok l2) =>
      l1 = length (heap w1) ∧ l2 = length (heap w2) ∧
      heap w1' !! l1 = heap w2' !! l2
  | (_, Raise e1), (_, Raise e2) => e1 = e2
  | _, _ => False
  end.
Proof.
  intros Ha. rewrite !predict_unfold.
  rewrite (Ha "label_count") by repeat constructor.
  destruct (ensure_input_format X) as [X'|e]; [|done].
  destruct (attrs w2 !! "label_count") as [v|]; [|done].
  destruct v as [|N| | | | | | |]; try done.
  destruct (Z.ltb_spec N 0); [done|].
  set (m0 := LilMatrix (Z.of_nat (shape0 X'), N) ∅).
  destruct (agree_merge_loops X' (length (heap w1)) (length (heap w2))
              (set_heap (heap w1 ++ [m0]) w1)
              (set_heap (heap w2 ++ [m0]) w2)) as [Ho [_ Hh]].
  { split; [done|]. simpl. by rewrite !lookup_app_r, !Nat.sub_diag. }
  destruct (merge_loops _ _ _ (set_heap (heap w1 ++ [m0]) w1))
    as [v1 [[]|e1]],
    (merge_loops _ _ _ (set_heap (heap w2 ++ [m0]) w2)) as [v2 [[]|e2]];
    simpl in *; simplify_eq; done.
Qed.

(** X7.  [predict] reads [label_count], [model_count], [classifiers_]
    and [partition_], and nothing else of the instance: on two instances
    that agree on these four, whatever their other attributes and
    whatever was allocated before, the same call raises the same
    exception or returns matrices with the same shape and entries. *)
Theorem predict_reads_only (w1 w2 : wd) X :
  (∀ name, name ∈ ["label_count"; "model_count"; "classifiers_";
                    "partition_"] →
           attrs w1 !! name = attrs w2 !! name) →
  match predict ensure_input_format ensure_output_format shape0 X w1,
        predict ensure_input_format ensure_output_format shape0 X w2 with
  | (w1', Ok l1), (w2', Ok l2) =>
      ∃ res, heap w1' !! l1 = Some res ∧ heap w2' !! l2 = Some res
  | (_, Raise e1), (_, Raise e2) => e1 = e2
  | _, _ => False
  end.
Proof.
  intros Ha.
  pose proof (predict_agree w1 w2 X Ha) as Hsame.
  pose proof (predict_undisturbed ensure_input_format ensure_output_format
                shape0 w1 X) as Hfirst.
  destruct (predict _ _ _ X w1) as [w1' [l1|e1]],
    (predict _ _ _ X w2) as [w2' [l2|e2]]; try done.
  destruct Hsame as (-> & -> & Heq), Hfirst as [_ Hl1].
  destruct (Hl1 _ eq_refl) as [_ Hlt].
  destruct (lookup_lt_is_Some_2 _ _ Hlt) as [res Hres].
  exists res. split; [done|]. by rewrite <- Heq.
Qed.

(** X8.  A call to [predict] can be repeated: if it returned a matrix, the
    same call on the instance as it now is returns another matrix, with
    the same shape and entries, and leaves the first as it is; if it
    raised an exception, the same call raises it again. *)
Theorem predict_repeatable (w : wd) X :
  match predict ensure_input_format ensure_output_format shape0 X w with
  | (w', Ok l1) =>
      ∃ w'' l2 res,
        predict ensure_input_format ensure_output_format shape0 X w'
          = (w'', Ok l2) ∧
        l1 ≠ l2 ∧ heap w'' !! l1 = Some res ∧ heap w'' !! l2 = Some res
  | (w', Raise e) =>
      ∃ w'',
        predict ensure_input_format ensure_output_format shape0 X w'
          = (w'', Raise e)
  end.
Proof.
  pose proof (predict_undisturbed ensure_input_format ensure_output_format
                shape0 w X) as Hfirst.
  destruct (predict _ _ _ X w) as [w' o] eqn:Hrun1.
  destruct Hfirst as [(Ha & _ & _) Hl1].
  assert (Hreads : same_reads w w') by (intros name _; by rewrite Ha).
  pose proof (predict_agree w w' X Hreads) as Hsame.
  pose proof (predict_undisturbed ensure_input_format ensure_output_format
                shape0 w' X) as Hsecond.
  rewrite Hrun1 in Hsame.
  destruct (predict _ _ _ X w') as [w'' o'] eqn:Hrun2.
  destruct Hsecond as [(_ & _ & Hh) Hl2].
  destruct o as [l1|e], o' as [l2|e']; try done.
  - destruct Hsame as (-> & -> & Heq).
    destruct (Hl1 _ eq_refl) as [_ Hlt].
    destruct (lookup_lt_is_Some_2 _ _ Hlt) as [res Hres].
    exists w'', (length (heap w')), res. split_and!; [done|lia| |].
    + by rewrite Hh.
    + by rewrite <- Heq.
  - subst. by exists w''.
Qed.

(** ** Passes that fail, passes that write nothing *)

Lemma for_app {A} (l1 l2 : list A) (body : A → M unit) (w : wd) :
  for_ (l1 ++ l2) body w = (for_ l1 body ≫= λ _, for_ l2 body) w.
Proof.
  revert w. induction l1 as [|x l1 IH]; intros w; [done|].
  cbn [app for_]. unfold mbind, M_bind in *.
  destruct (body x w) as [w' [[]|e]]; [|done]. apply IH.
Qed.

Lemma model_pass_ok_run (w : wd) X (N : Z) p cs l m sp mtx :
  attrs w !! "classifiers_" = Some (VClassifiers cs) →
  attrs w !! "partition_" = Some (VPartition p) →
  pass_ok ensure_output_format shape0 X N p cs m sp →
  heap w !! l = Some mtx → lil_shape mtx = (Z.of_nat (shape0 X), N) →
  ∃ mtx',
    model_pass ensure_output_format X l m w =
      (set_heap (<[l := mtx']> (heap w)) w, Ok tt) ∧
    lil_shape mtx' = lil_shape mtx.
Proof.
  intros Hcs Hp (c & raw & group & Hc & Hraw & Hout & Hgroup & Hrows & Hcols
                 & Hrange) Hl Hs.
  exists (mark mtx (targets group (nonzero sp))). split; [|done].
  unfold model_pass, mbind, M_bind, getattr. rewrite Hcs.
  unfold classifier_at. simpl. rewrite Hc. simpl.
  unfold lift. rewrite Hraw, Hout.
  apply (for_scatter_run _ w l m p group mtx (Z.of_nat (shape0 X)) N);
    try done.
  apply Forall_forall. intros [r c'] Hin.
  destruct (nonzero_in_shape sp _ _ r c' Hrows Hcols Hin) as [Hr Hc'].
  simpl. split; [lia|].
  destruct (lookup_lt_is_Some_2 group c' Hc') as [g Hg].
  exists g. split; [done|].
  rewrite Forall_forall in Hrange. apply Hrange.
  apply list_elem_of_lookup. eauto.
Qed.

Lemma passes_ok_run (ms : list nat) :
  ∀ (w : wd) X (N : Z) p cs l mtx,
  attrs w !! "classifiers_" = Some (VClassifiers cs) →
  attrs w !! "partition_" = Some (VPartition p) →
  Forall (λ m, ∃ sp, pass_ok ensure_output_format shape0 X N p cs m sp) ms →
  heap w !! l = Some mtx → lil_shape mtx = (Z.of_nat (shape0 X), N) →
  ∃ mtx',
    for_ ms (model_pass ensure_output_format X l) w =
      (set_heap (<[l := mtx']> (heap w)) w, Ok tt) ∧
    lil_shape mtx' = lil_shape mtx.
Proof.
  induction ms as [|m ms IH]; intros w X N p cs l mtx Hcs Hp Hall Hl Hs.
  - exists mtx. split; [|done]. simpl.
    by rewrite list_insert_id, set_heap_id.
  - apply Forall_cons in Hall as [[sp Hok] Hall].
    destruct (model_pass_ok_run w X N p cs l m sp mtx Hcs Hp Hok Hl Hs)
      as (mtx1 & Hrun1 & Hs1).
    destruct (IH (set_heap (<[l := mtx1]> (heap w)) w) X N p cs l mtx1)
      as (mtx2 & Hrun2 & Hs2); try done.
    { simpl. apply list_lookup_insert_eq. by eapply lookup_lt_Some. }
    { congruence. }
    exists mtx2. split; [|congruence].
    cbn [for_]. unfold mbind, M_bind. rewrite Hrun1, Hrun2.
    rewrite set_heap_twice. simpl. by rewrite list_insert_insert_eq.
Qed.

Lemma model_pass_raises_run (w : wd) X cs l m e :
  attrs w !! "classifiers_" = Some (VClassifiers cs) →
  pass_raises ensure_output_format X cs m e →
  model_pass ensure_output_format X l m w = (w, Raise e).
Proof.
  intros Hcs Hfail. unfold pass_raises in Hfail.
  unfold model_pass, mbind, M_bind, getattr. rewrite Hcs.
  unfold classifier_at. simpl.
  destruct (cs !! m) as [c|]; [|by subst]. simpl. unfold lift.
  destruct (c X) as [raw|e']; [|by subst]. by rewrite Hfail.
Qed.

(** X9.  The first pass that cannot start decides the outcome.  When the
    passes of the models before [k] go through and model [k], below the
    model count, has no classifier, or its classifier raises, or the
    coercion of its answer raises, [predict] raises that very exception
    (an index error in the first case) and the attributes of the instance
    are as before. *)
Theorem predict_first_failure (w : wd) X X' (N n : Z) p cs (k : nat) e :
  ensure_input_format X = Ok X' →
  attrs w !! "label_count" = Some (VInt N) → (0 ≤ N)%Z →
  attrs w !! "model_count" = Some (VInt n) → (Z.of_nat k < n)%Z →
  attrs w !! "classifiers_" = Some (VClassifiers cs) →
  attrs w !! "partition_" = Some (VPartition p) →
  (∀ m, m < k → ∃ sp, pass_ok ensure_output_format shape0 X' N p cs m sp) →
  pass_raises ensure_output_format X' cs k e →
  ∃ w',
    predict ensure_input_format ensure_output_format shape0 X w
      = (w', Raise e) ∧
    attrs w' = attrs w.
Proof.
  intros HX Hlc HN Hmc Hk Hcs Hp Hbefore Hfail.
  rewrite (predict_from_allocation w X X' N) by done.
  set (m0 := LilMatrix (Z.of_nat (shape0 X'), N) ∅).
  set (w1 := set_heap (heap w ++ [m0]) w).
  unfold merge_loops, mbind at 1, M_bind at 1, getattr at 1.
  replace (attrs w1) with (attrs w) by done. rewrite Hmc.
  unfold range, mbind at 1, M_bind at 1, mret at 1, M_ret at 1.
  replace (Z.to_nat n) with (k + S (Z.to_nat n - S k)) by lia.
  rewrite seq_app. cbn [seq]. rewrite for_app.
  destruct (passes_ok_run (seq 0 k) w1 X' N p cs (length (heap w)) m0)
    as (mtx & Hrun & _); try done.
  { apply Forall_forall. intros m [_ Hm]%elem_of_seq. apply Hbefore. lia. }
  { simpl. by rewrite lookup_app_r, Nat.sub_diag. }
  unfold mbind, M_bind. rewrite Hrun. cbn [for_ plus].
  unfold mbind, M_bind.
  rewrite (model_pass_raises_run _ X' cs _ k e) by done.
  by eexists.
Qed.




Lemma model_pass_silent_run (w : wd) X cs l m :
  attrs w !! "classifiers_" = Some (VClassifiers cs) →
  pass_silent ensure_output_format X cs m →
  model_pass ensure_output_format X l m w = (w, Ok tt).
Proof.
  intros Hcs (c & raw & sp & Hc & Hraw & Hout & Hnz).
  unfold model_pass, mbind, M_bind, getattr. rewrite Hcs.
  unfold classifier_at. simpl. rewrite Hc. simpl.
  unfold lift. by rewrite Hraw, Hout, Hnz.
Qed.

(** X11.  When no classifier predicts a label, [predict] returns the
    all-zero matrix and never reads [partition_], which need not be
    bound, nor match the classifiers. *)
Theorem predict_silent (w : wd) X X' (N n : Z) cs :
  ensure_input_format X = Ok X' →
  attrs w !! "label_count" = Some (VInt N) → (0 ≤ N)%Z →
  attrs w !! "model_count" = Some (VInt n) →
  attrs w !! "classifiers_" = Some (VClassifiers cs) →
  (∀ m : nat, (Z.of_nat m < n)%Z →
              pass_silent ensure_output_format X' cs m) →
  predict ensure_input_format ensure_output_format shape0 X w =
    (set_heap (heap w ++ [LilMatrix (Z.of_nat (shape0 X'), N) ∅]) w,
     Ok (length (heap w))).
Proof.
  intros HX Hlc HN Hmc Hcs Hsilent.
  rewrite (predict_from_allocation w X X' N) by done.
  set (w1 := set_heap _ w).
  assert (Hloop : ∀ ms : list nat,
            Forall (λ m, (Z.of_nat m < n)%Z) ms →
            for_ ms (model_pass ensure_output_format X' (length (heap w))) w1
              = (w1, Ok tt)).
  { induction ms as [|m ms IH]; intros Hms; [done|].
    apply Forall_cons in Hms as [Hm Hms].
    cbn [for_]. unfold mbind, M_bind.
    rewrite (model_pass_silent_run w1 X' cs _ m) by (done || by apply Hsilent).
    by apply IH. }
  unfold merge_loops, mbind, M_bind, getattr.
  replace (attrs w1) with (attrs w) by done. rewrite Hmc.
  unfold range, mret, M_ret. rewrite Hloop; [done|].
  apply Forall_forall. intros m [_ Hm]%elem_of_seq. lia.
Qed.

(** ** More on partition generation *)

(** X12.  A successful [_generate_partition] leaves nothing of an earlier
    one: run after another call, it ends in the same state as run in its
    place. *)
Theorem generate_partition_replaces (w : wd) X1 y1 X2 y2 :
  (_generate_partition shape1 X2 y2 w).2 = Ok tt →
  _generate_partition shape1 X2 y2 (_generate_partition shape1 X1 y1 w).1
    = _generate_partition shape1 X2 y2 w.
Proof.
  rewrite (generate_partition_run shape1 w X2 y2).
  rewrite (generate_partition_run shape1 w X1 y1).
  destruct (attrs w !! "clusterer") as [v|] eqn:Hk; [|done].
  destruct v; try done.
  destruct (k X2 y2) as [p2|e2] eqn:H2; [|done]. intros _.
  destruct (k X1 y1) as [p1|e1] eqn:H1.
  - rewrite generate_partition_run. cbn [fst attrs set_attrs].
    rewrite !lookup_insert_ne by done. rewrite Hk, H2.
    unfold set_attrs. cbn [attrs heap]. do 2 f_equal.
    apply map_eq. intros name. rewrite !lookup_insert.
    by repeat case_decide.
  - cbn [fst]. by rewrite generate_partition_run, Hk, H2.
Qed.

(** X13.  A new instance built with something that is no clusterer under
    [clusterer] (the default is [None]) cannot generate a partition:
    [_generate_partition] raises an attribute error for [fit_predict] and
    binds nothing. *)
Theorem generate_partition_without_clusterer
    (c v rd : value Csr RawPred Labels) (h : list lil_matrix) X y :
  (∀ k, v ≠ VClusterer k) →
  let w := (__init__ c v rd (World ∅ h)).1 in
  attrs w !! "clusterer" = Some v ∧
  _generate_partition shape1 X y w = (w, Raise (AttributeError "fit_predict")).
Proof.
  intros Hv w.
  assert (Hk : attrs w !! "clusterer" = Some v).
  { unfold w. rewrite init_attrs.
    by rewrite lookup_insert_ne, lookup_insert_eq by done. }
  split; [done|]. rewrite generate_partition_run, Hk.
  destruct v; try done. by destruct (Hv k).
Qed.

End MoreFacts.

(** ** The concrete settings *)

Section EdgeFacts.
Import Scenario Edge.

Lemma swapped_trained : trained swapped 3 [[1]; [0; 2]]%Z [ones 1; ones 2].
Proof. split; try reflexivity; [lia|]. repeat constructor; lia. Qed.

Lemma swapped_answers :
  answers ensure_output_format shape0 1 [[1]; [0; 2]]%Z [ones 1; ones 2]
    [[[1]]; [[1; 1]]]%Z.
Proof. split; repeat constructor; by eexists. Qed.

Lemma first_group_trained : trained first_group 3 [[0; 2]]%Z [ones 2].
Proof. split; try reflexivity; [lia|]. repeat constructor; lia. Qed.

Lemma first_group_answers :
  answers ensure_output_format shape0 1 [[0; 2]]%Z [ones 2] [[[1; 1]]]%Z.
Proof. split; repeat constructor; by eexists. Qed.

Lemma first_pass_ok :
  pass_ok ensure_output_format shape0 1 3 partition_ [ones 2; broken] 0
    [[1; 1]]%Z.
Proof.
  exists (ones 2), [[1; 1]]%Z, [0; 2]%Z.
  split_and!; try reflexivity; repeat constructor; lia.
Qed.

(** Groups [[0,1],[1]]: labels 0 and 1 are predicted, label 2 is not. *)
Lemma predict_union_witness :
  trained ready_overlapping 3 overlapping classifiers_ ∧
  answers ensure_output_format shape0 1 overlapping classifiers_ preds ∧
  ∃ res,
    Scenario.predict (Some 1) ready_overlapping
      = (set_heap [res] ready_overlapping, Ok 0) ∧
    lil_shape res = (1, 3)%Z ∧
    lil_get res 0 0 = 1%Z ∧ lil_get res 0 1 = 1%Z ∧ lil_get res 0 2 = 0%Z.
Proof.
  split_and!; [apply overlapping_trained | apply overlapping_answers |].
  destruct (predict_union ensure_input_format ensure_output_format shape0
              ready_overlapping (Some 1) 1 3 overlapping classifiers_ preds
              eq_refl overlapping_trained overlapping_answers)
    as (res & Hrun & Hshape & Hcells).
  exists res. split; [exact Hrun|]. split; [exact Hshape|]. split_and!.
  - apply (Hcells 0 0%Z). exists 0, [0; 1]%Z, [[1; 1]]%Z, 0.
    by split_and!.
  - apply (Hcells 0 1%Z). exists 1, [1]%Z, [[1]]%Z, 0. by split_and!.
  - destruct (Hcells 0 2%Z) as [[Hone _] [Hzero|Hone']]; [exact Hzero|].
    apply Hone in Hone' as (m & group & sp & c & Hgroup & _ & Hc & _).
    exfalso. apply label_2_uncovered. exists group.
    split; apply list_elem_of_lookup; eauto.
Defined.

(** The first group alone predicts no more than the two groups. *)
Lemma predict_monotone_witness :
  zip [[0; 2]]%Z [ones 2] ⊆ zip partition_ classifiers_ ∧
  ∃ res1 res2,
    Scenario.predict (Some 1) first_group = (set_heap [res1] first_group, Ok 0) ∧
    Scenario.predict (Some 1) ready = (set_heap [res2] ready, Ok 0) ∧
    ∀ i j, (lil_get res1 i j ≤ lil_get res2 i j)%Z.
Proof.
  assert (Hsub : zip [[0; 2]]%Z [ones 2] ⊆ zip partition_ classifiers_).
  { intros x Hx. simpl in *. apply elem_of_cons. left.
    by apply list_elem_of_singleton in Hx. }
  split; [exact Hsub|].
  exact (predict_monotone ensure_input_format ensure_output_format shape0
           first_group ready (Some 1) 1 3 _ _ _ _ _ _
           eq_refl first_group_trained first_group_answers
           ready_trained ready_answers Hsub).
Defined.

(** The two groups in either order give the same matrix. *)
Lemma predict_order_irrelevant_witness :
  zip partition_ classifiers_ ≡ₚ zip [[1]; [0; 2]]%Z [ones 1; ones 2] ∧
  ∃ res1 res2,
    Scenario.predict (Some 1) ready = (set_heap [res1] ready, Ok 0) ∧
    Scenario.predict (Some 1) swapped = (set_heap [res2] swapped, Ok 0) ∧
    lil_shape res1 = lil_shape res2 ∧
    ∀ i j, lil_get res1 i j = lil_get res2 i j.
Proof.
  assert (Hperm : zip partition_ classifiers_
                    ≡ₚ zip [[1]; [0; 2]]%Z [ones 1; ones 2])
    by apply perm_swap.
  split; [exact Hperm|].
  exact (predict_order_irrelevant ensure_input_format ensure_output_format
           shape0 ready swapped (Some 1) 1 3 _ _ _ _ _ _
           eq_refl ready_trained ready_answers
           swapped_trained swapped_answers Hperm).
Defined.

(** Two samples, three labels, no model: a (2, 3) matrix of zeros. *)
Lemma predict_no_models_witness :
  attrs no_models !! "classifiers_" = None ∧
  attrs no_models !! "partition_" = None ∧
  Scenario.predict (Some 2) no_models
    = (set_heap [LilMatrix (2, 3)%Z ∅] no_models, Ok 0).
Proof.
  split; [reflexivity|]. split; [reflexivity|].
  apply (predict_no_models ensure_input_format ensure_output_format shape0
           no_models (Some 2) 2 3 0); [reflexivity|reflexivity|lia|
                                        reflexivity|lia].
Defined.

(** The three missing attributes, one instance each. *)
Lemma predict_missing_attribute_witness :
  (Scenario.predict (Some 1) label_count_only).2
    = Raise (AttributeError "model_count") ∧
  (Scenario.predict (Some 1) counts_only).2
    = Raise (AttributeError "classifiers_") ∧
  (Scenario.predict (Some 1) no_partition).2
    = Raise (AttributeError "partition_").
Proof.
  unfold Scenario.predict. split_and!.
  - rewrite (proj1 (predict_missing_attribute ensure_input_format
                      ensure_output_format shape0 label_count_only
                      (Some 1) 1 3 eq_refl eq_refl ltac:(lia)));
      reflexivity.
  - rewrite (proj1 (proj2 (predict_missing_attribute ensure_input_format
                             ensure_output_format shape0 counts_only
                             (Some 1) 1 3 eq_refl eq_refl ltac:(lia)))
               2%Z); first [reflexivity | lia].
  - rewrite (proj2 (proj2 (predict_missing_attribute ensure_input_format
                             ensure_output_format shape0 no_partition
                             (Some 1) 1 3 eq_refl eq_refl ltac:(lia)))
               2%Z classifiers_ (ones 2) [[1; 1]]%Z [[1; 1]]%Z);
      first [reflexivity | lia | discriminate].
Defined.

Lemma predict_well_formed_witness :
  ∃ w' res,
    Scenario.predict (Some 1) ready = (w', Ok 0) ∧
    heap w' !! 0 = Some res ∧ lil_shape res = (1, 3)%Z ∧ within res.
Proof.
  destruct (Scenario.predict (Some 1) ready) as [w' o] eqn:Hrun.
  assert (Ho : o = Ok 0).
  { change o with (w', o).2. rewrite <- Hrun. reflexivity. }
  subst o.
  destruct (predict_well_formed ensure_input_format ensure_output_format
              shape0 ready w' (Some 1) 0 Hrun)
    as (X' & N & res & HX & HN & _ & Hres & Hshape & Hin).
  injection HX as <-. injection HN as <-.
  exists w', res. by split_and!.
Defined.

Lemma predict_repeatable_witness :
  ∃ w' w'' res,
    Scenario.predict (Some 1) ready = (w', Ok 0) ∧
    Scenario.predict (Some 1) w' = (w'', Ok 1) ∧
    heap w'' !! 0 = Some res ∧ heap w'' !! 1 = Some res.
Proof.
  pose proof (predict_repeatable ensure_input_format ensure_output_format
                shape0 ready (Some 1)
              : match Scenario.predict (Some 1) ready with
                | (w', Ok l1) =>
                    ∃ w'' l2 res,
                      Scenario.predict (Some 1) w' = (w'', Ok l2) ∧
                      l1 ≠ l2 ∧ heap w'' !! l1 = Some res ∧
                      heap w'' !! l2 = Some res
                | (w', Raise e) =>
                    ∃ w'', Scenario.predict (Some 1) w' = (w'', Raise e)
                end) as Hrep.
  destruct (Scenario.predict (Some 1) ready) as [w' o] eqn:Hrun.
  assert (Ho : o = Ok 0).
  { change o with (w', o).2. rewrite <- Hrun. reflexivity. }
  subst o. destruct Hrep as (w'' & l2 & res & Hrun2 & Hne & H0 & H2).
  assert (Hl2 : l2 = 1).
  { change l2 with (match (w'', Ok l2) with (_, Ok l) => l | _ => 0 end).
    rewrite <- Hrun2.
    change w' with (w', Ok 0 : outcome nat).1. rewrite <- Hrun.
    reflexivity. }
  subst l2. by exists w', w'', res.
Defined.

(** The second classifier fails: its exception is the outcome. *)
Lemma predict_first_failure_witness :
  pass_ok ensure_output_format shape0 1 3 partition_ [ones 2; broken] 0
    [[1; 1]]%Z ∧
  pass_raises ensure_output_format 1 [ones 2; broken] 1
    (Raised "shape-mismatch") ∧
  ∃ w', Scenario.predict (Some 1) second_broken
          = (w', Raise (Raised "shape-mismatch")) ∧
        attrs w' = attrs second_broken.
Proof.
  split; [exact first_pass_ok|]. split; [reflexivity|].
  apply (predict_first_failure ensure_input_format ensure_output_format
           shape0 second_broken (Some 1) 1 3 2 partition_ [ones 2; broken] 1);
    try reflexivity; try lia.
  intros m Hm. assert (m = 0) as -> by lia. eexists. exact first_pass_ok.
Defined.


(** Other attributes and an earlier matrix change nothing. *)
Lemma predict_reads_only_witness :
  attrs ready !! "model_count_" ≠ attrs ready_and_more !! "model_count_" ∧
  ∃ w1' w2' res,
    Scenario.predict (Some 1) ready = (w1', Ok 0) ∧
    Scenario.predict (Some 1) ready_and_more = (w2', Ok 1) ∧
    heap w1' !! 0 = Some res ∧ heap w2' !! 1 = Some res.
Proof.
  split; [discriminate|].
  assert (Hreads : ∀ name,
            name ∈ ["label_count"; "model_count"; "classifiers_";
                    "partition_"] →
            attrs ready !! name = attrs ready_and_more !! name).
  { intros name Hname. rewrite !elem_of_cons, elem_of_nil in Hname.
    destruct Hname as [->|[->|[->|[->|[]]]]]; reflexivity. }
  pose proof (predict_reads_only ensure_input_format ensure_output_format
                shape0 ready ready_and_more (Some 1) Hreads
              : match Scenario.predict (Some 1) ready,
                      Scenario.predict (Some 1) ready_and_more with
                | (w1', Ok l1), (w2', Ok l2) =>
                    ∃ res, heap w1' !! l1 = Some res ∧
                           heap w2' !! l2 = Some res
                | (_, Raise e1), (_, Raise e2) => e1 = e2
                | _, _ => False
                end) as Hsame.
  destruct (Scenario.predict (Some 1) ready) as [w1' o1] eqn:Hrun1.
  destruct (Scenario.predict (Some 1) ready_and_more) as [w2' o2] eqn:Hrun2.
  assert (Ho1 : o1 = Ok 0).
  { change o1 with (w1', o1).2. rewrite <- Hrun1. reflexivity. }
  assert (Ho2 : o2 = Ok 1).
  { change o2 with (w2', o2).2. rewrite <- Hrun2. reflexivity. }
  subst. destruct Hsame as (res & H1 & H2). by exists w1', w2', res.
Defined.

(** Classifiers that predict nothing, no partition: a matrix of zeros. *)
Lemma predict_silent_witness :
  attrs silent !! "partition_" = None ∧
  Scenario.predict (Some 1) silent
    = (set_heap [LilMatrix (1, 3)%Z ∅] silent, Ok 0).
Proof.
  split; [reflexivity|].
  apply (predict_silent ensure_input_format ensure_output_format shape0
           silent (Some 1) 1 3 2 [constant [0; 0]%Z; constant [0%Z]]);
    try reflexivity; try lia.
  intros m Hm. destruct m as [|[|m]]; [| |lia].
  - by exists (constant [0; 0]%Z), [[0; 0]]%Z, [[0; 0]]%Z.
  - by exists (constant [0%Z]), [[0]]%Z, [[0]]%Z.
Defined.

(** Three labels, then two: only the second partition is left. *)
Lemma generate_partition_replaces_witness :
  let w := (generate_partition 1 (1, 2)
              (generate_partition 1 (1, 3) fresh_per_label).1).1 in
  (generate_partition 1 (1, 2) fresh_per_label).2 = Ok tt ∧
  w = (generate_partition 1 (1, 2) fresh_per_label).1 ∧
  attrs w !! "partition_" = Some (VPartition [[0]; [1]]%Z) ∧
  attrs w !! "model_count_" = Some (VInt 2) ∧
  attrs w !! "_label_count" = Some (VInt 2).
Proof.
  intros w. split; [reflexivity|].
  assert (Heq : w = (generate_partition 1 (1, 2) fresh_per_label).1).
  { unfold w, generate_partition.
    by rewrite (generate_partition_replaces shape1 fresh_per_label
                  1 (1, 3) 1 (1, 2) eq_refl). }
  split; [exact Heq|]. rewrite Heq. by split_and!.
Defined.

(** The default clusterer is [None]: no partition can be generated. *)
Lemma generate_partition_without_clusterer_witness :
  attrs default_clusterer !! "clusterer" = Some VNone ∧
  generate_partition 1 (1, 3) default_clusterer
    = (default_clusterer, Raise (AttributeError "fit_predict")).
Proof.
  apply (generate_partition_without_clusterer shape1 (VEstimator base)
           VNone (VFlags (true, true)) [] 1 (1, 3)).
  intros k. discriminate.
Defined.

End EdgeFacts.
